(** * A 3D model viewer: asset normalisation and control-panel bindings

    Shallow embedding of [src/index.js].  The script builds a scene,
    starts two asynchronous loads (an HDR environment and a glTF model),
    and, once the model has arrived, fits it into the scene and wires the
    sliders of a control panel to the renderer, the materials, a point
    light and the model's rotation.

    Layout of the development:
    - [Num]: JavaScript numbers, with the IEEE special values;
    - [Three]: the few vector and bounding-box operations of the 3D
      library that the script calls;
    - [Viewer]: the script itself (state, callbacks, event dispatch);
    - the theorems. *)

From Stdlib Require Import QArith Qminmax Lqa ZArith List String Bool Lia.
Import ListNotations.

Local Open Scope Q_scope.

(** ** JavaScript numbers

    A finite number is a rational; rounding of finite results is
    idealised (every finite result is exact) and zero carries no sign.
    The three IEEE special values are kept, with the arithmetic the
    language gives them: a positive number divided by zero is
    [Infinity], [0 / 0] and [0 * Infinity] are [NaN], and so on.

    The operations are exact on finite numbers, so they do not
    overflow: they are the operations of the language, up to rounding,
    only as long as the results stay within the range of doubles.
    The properties of the fit, which multiply and divide the
    coordinates of the model, are stated for models of moderate size
    and prove that every number computed stays in that range. *)
Module Num.

Inductive num : Type :=
| Fin (q : Q)
| PInf
| NInf
| NaN.

Definition isFinite (a : num) : bool :=
  match a with Fin _ => true | _ => false end.

Definition isNaN (a : num) : bool :=
  match a with NaN => true | _ => false end.

(** Numeric equality ([===] on numbers that are not [NaN]): finite
    numbers are compared as rationals. *)
Definition eqn (a b : num) : Prop :=
  match a, b with
  | Fin p, Fin q => p == q
  | PInf, PInf => True
  | NInf, NInf => True
  | _, _ => False
  end.

Definition eqnb (a b : num) : bool :=
  match a, b with
  | Fin p, Fin q => Qeq_bool p q
  | PInf, PInf => true
  | NInf, NInf => true
  | _, _ => false
  end.

(** Sign of a rational: [Gt] positive, [Eq] zero, [Lt] negative. *)
Definition sgn (q : Q) : comparison := 0 ?= q.

Definition neg (a : num) : num :=
  match a with
  | Fin q => Fin (- q)
  | PInf => NInf
  | NInf => PInf
  | NaN => NaN
  end.

Definition add (a b : num) : num :=
  match a, b with
  | NaN, _ | _, NaN => NaN
  | Fin p, Fin q => Fin (p + q)
  | PInf, NInf | NInf, PInf => NaN
  | PInf, _ | _, PInf => PInf
  | NInf, _ | _, NInf => NInf
  end.

Definition sub (a b : num) : num := add a (neg b).

(** An infinity with the sign of [c] ([NaN] when [c] is zero). *)
Definition inf_of (c : comparison) : num :=
  match c with Lt => PInf | Gt => NInf | Eq => NaN end.

Definition mul (a b : num) : num :=
  match a, b with
  | NaN, _ | _, NaN => NaN
  | Fin p, Fin q => Fin (p * q)
  | Fin p, PInf | PInf, Fin p => inf_of (sgn p)
  | Fin p, NInf | NInf, Fin p => neg (inf_of (sgn p))
  | PInf, PInf | NInf, NInf => PInf
  | PInf, NInf | NInf, PInf => NInf
  end.

(** Division.  The zero divisor is the positive zero, so the sign of
    [p / 0] is the sign of [p]. *)
Definition div (a b : num) : num :=
  match a, b with
  | NaN, _ | _, NaN => NaN
  | Fin p, Fin q =>
      match sgn q with
      | Eq => inf_of (sgn p)
      | _ => Fin (p / q)
      end
  | Fin _, (PInf | NInf) => Fin 0
  | PInf, Fin q => match sgn q with Gt => NInf | _ => PInf end
  | NInf, Fin q => match sgn q with Gt => PInf | _ => NInf end
  | (PInf | NInf), (PInf | NInf) => NaN
  end.

(** [a < b]; every comparison with [NaN] is false. *)
Definition ltb (a b : num) : bool :=
  match a, b with
  | NaN, _ | _, NaN => false
  | Fin p, Fin q => match p ?= q with Lt => true | _ => false end
  | NInf, NInf => false
  | NInf, _ => true
  | _, NInf => false
  | PInf, _ => false
  | _, PInf => true
  end.

(** [Math.max(a, b)] and [Math.min(a, b)]: [NaN] if either argument is. *)
Definition max (a b : num) : num :=
  match a, b with
  | NaN, _ | _, NaN => NaN
  | _, _ => if ltb a b then b else a
  end.

Definition min (a b : num) : num :=
  match a, b with
  | NaN, _ | _, NaN => NaN
  | _, _ => if ltb b a then b else a
  end.

(** [Math.max(a, b, c)]. *)
Definition max3 (a b c : num) : num := max (max a b) c.

End Num.

Export Num.

Declare Scope num_scope.
Delimit Scope num_scope with num.
Infix "=n=" := eqn (at level 70, no associativity) : num_scope.
Local Open Scope num_scope.

(** ** The 3D library: vectors and axis-aligned boxes

    Only the methods the script calls, with the library's semantics.
    A JavaScript vector is mutated in place; here every method returns
    the new value of the receiver. *)
Module Three.

Record Vector3 : Type := vec3 { x : num; y : num; z : num }.

Definition zero3 : Vector3 := vec3 (Fin 0) (Fin 0) (Fin 0).
Definition one3 : Vector3 := vec3 (Fin 1) (Fin 1) (Fin 1).

(** [v.set(a, b, c)]. *)
Definition set (v : Vector3) (a b c : num) : Vector3 := vec3 a b c.

(** [v.setScalar(s)]: all three components become [s]. *)
Definition setScalar (v : Vector3) (s : num) : Vector3 := vec3 s s s.

(** [v.setY(a)]: the up-axis component is overwritten. *)
Definition setY (v : Vector3) (a : num) : Vector3 := vec3 (x v) a (z v).

(** [v.sub(w)]. *)
Definition vsub (v w : Vector3) : Vector3 :=
  vec3 (sub (x v) (x w)) (sub (y v) (y w)) (sub (z v) (z w)).

(** [v.addVectors(a, b)] and [v.subVectors(a, b)]. *)
Definition addVectors (a b : Vector3) : Vector3 :=
  vec3 (add (x a) (x b)) (add (y a) (y b)) (add (z a) (z b)).

Definition subVectors (a b : Vector3) : Vector3 :=
  vec3 (sub (x a) (x b)) (sub (y a) (y b)) (sub (z a) (z b)).

(** [v.multiplyScalar(s)] and the component-wise [v.multiply(w)]. *)
Definition multiplyScalar (v : Vector3) (s : num) : Vector3 :=
  vec3 (mul (x v) s) (mul (y v) s) (mul (z v) s).

Definition multiply (v w : Vector3) : Vector3 :=
  vec3 (mul (x v) (x w)) (mul (y v) (y w)) (mul (z v) (z w)).

(** [v.min(w)] and [v.max(w)], component-wise. *)
Definition vmin (v w : Vector3) : Vector3 :=
  vec3 (min (x v) (x w)) (min (y v) (y w)) (min (z v) (z w)).

Definition vmax (v w : Vector3) : Vector3 :=
  vec3 (max (x v) (x w)) (max (y v) (y w)) (max (z v) (z w)).

(** Component-wise numeric equality. *)
Definition veq (v w : Vector3) : Prop :=
  x v =n= x w /\ y v =n= y w /\ z v =n= z w.

Record Box3 : Type := box3 { bmin : Vector3; bmax : Vector3 }.

(** [new Box3()]: the empty box, [min = +Infinity], [max = -Infinity]. *)
Definition emptyBox : Box3 :=
  box3 (vec3 PInf PInf PInf) (vec3 NInf NInf NInf).

(** [box.isEmpty()]. *)
Definition isEmpty (b : Box3) : bool :=
  ltb (x (bmax b)) (x (bmin b))
  || ltb (y (bmax b)) (y (bmin b))
  || ltb (z (bmax b)) (z (bmin b)).

(** [box.getSize(target)]: the extents, or zero for an empty box. *)
Definition getSize (b : Box3) : Vector3 :=
  if isEmpty b then zero3 else subVectors (bmax b) (bmin b).

(** [box.getCenter(target)]: the midpoint, or zero for an empty box. *)
Definition getCenter (b : Box3) : Vector3 :=
  if isEmpty b then zero3
  else multiplyScalar (addVectors (bmin b) (bmax b)) (Fin (1 # 2)).

(** [box.expandByPoint(p)]. *)
Definition expandByPoint (b : Box3) (p : Vector3) : Box3 :=
  box3 (vmin (bmin b) p) (vmax (bmax b) p).

(** The image of a local point under an unrotated transform: the
    point is scaled axis by axis, then translated. *)
Definition applyTransform (position scale p : Vector3) : Vector3 :=
  addVectors (multiply p scale) position.

(** The image of a box under an unrotated transform: the smallest box
    that holds the images of its two corners.  An empty box stays
    empty (there is no point to transform). *)
Definition transformBox (position scale : Vector3) (b : Box3) : Box3 :=
  if isEmpty b then emptyBox
  else
    expandByPoint
      (expandByPoint emptyBox (applyTransform position scale (bmin b)))
      (applyTransform position scale (bmax b)).

End Three.

Export Three.

(** ** The objects of the scene *)

(** The five tone-mapping names offered by the drop-down of the control
    panel, and the constant that [THREE[name]] resolves each one to. *)
Inductive ToneName : Type :=
| NoToneMapping
| LinearToneMapping
| ReinhardToneMapping
| CineonToneMapping
| ACESFilmicToneMapping.

Definition THREE (name : ToneName) : Z :=
  match name with
  | NoToneMapping => 0
  | LinearToneMapping => 1
  | ReinhardToneMapping => 2
  | CineonToneMapping => 3
  | ACESFilmicToneMapping => 4
  end%Z.

(** A mesh material.  [toneMapping] and [toneMappingExposure] are not
    set by the model loader; they are [undefined] ([None]) until the
    script writes them.  The assignment [material.needsUpdate = true]
    is a setter of the library: it adds one to the material's
    [version], the counter the renderer reads to see that the material
    has changed.  [needsUpdate] records that the script has made that
    assignment; [version] counts how many times. *)
Module Material.
Record t : Type := make {
  metalness : num;
  roughness : num;
  toneMapping : option Z;
  toneMappingExposure : option num;
  needsUpdate : bool;
  version : nat
}.
End Material.

(** A node of the model.  Only a mesh carries a material
    ([child.isMesh] is the test for the [Mesh] constructor). *)
Module Object3D.

Inductive Kind : Type :=
| Group
| Mesh (material : Material.t).

Record Props : Type := make {
  kind : Kind;
  position : Vector3;
  scale : Vector3;
  rotation : Vector3;
  castShadow : bool;
  receiveShadow : bool
}.

#[local] Set Warnings "-register-all".
Inductive t : Type :=
| Node (props : Props) (children : list t).
#[local] Set Warnings "register-all".

Definition props (o : t) : Props := let 'Node p _ := o in p.
Definition children (o : t) : list t := let 'Node _ ch := o in ch.

Definition isMesh (p : Props) : bool :=
  match kind p with Mesh _ => true | Group => false end.

(** [o.traverse(callback)]: the callback runs on the node, then on
    each child's subtree.  The callbacks of the script write only to the
    fields of the node they visit. *)
Fixpoint traverse (callback : Props -> Props) (o : t) : t :=
  match o with
  | Node p ch => Node (callback p) (map (traverse callback) ch)
  end.

(** All nodes of a subtree, in the order [traverse] visits them. *)
Fixpoint nodes (o : t) : list Props :=
  match o with
  | Node p ch => p :: flat_map nodes ch
  end.

(** The materials of the meshes of a subtree. *)
Definition materialOf (p : Props) : list Material.t :=
  match kind p with Mesh m => [m] | Group => [] end.

Definition materials (o : t) : list Material.t :=
  flat_map materialOf (nodes o).

Definition withPosition (p : Props) (v : Vector3) : Props :=
  make (kind p) v (scale p) (rotation p) (castShadow p) (receiveShadow p).

Definition withScale (p : Props) (v : Vector3) : Props :=
  make (kind p) (position p) v (rotation p) (castShadow p) (receiveShadow p).

Definition withRotation (p : Props) (v : Vector3) : Props :=
  make (kind p) (position p) (scale p) v (castShadow p) (receiveShadow p).

(** A write to the node at the root of a subtree. *)
Definition atRoot (f : Props -> Props) (o : t) : t :=
  match o with Node p ch => Node (f p) ch end.

End Object3D.

Module Light.

Inductive Kind : Type :=
| Ambient
| Directional
| Point (distance : num).

Record t : Type := make {
  kind : Kind;
  color : Z;
  intensity : num;
  position : Vector3;
  castShadow : bool
}.

End Light.

Module Texture.

Inductive Mapping : Type :=
| UVMapping
| EquirectangularReflectionMapping.

Record t : Type := make {
  mapping : Mapping;
  intensity : option num
}.

End Texture.

Module Renderer.
Record t : Type := make {
  toneMapping : Z;
  toneMappingExposure : num
}.
End Renderer.

(** The parameters the script hangs off [window] (lines 186-201). *)
Module Window.
Record t : Type := make {
  envMapIntensity : num;
  lightIntensity : num;
  lightX : num;
  lightY : num;
  lightZ : num;
  rotation : num;
  defaultMetalness : num;
  defaultRoughness : num;
  metalness : num;
  roughness : num;
  toneMapping : ToneName;
  toneMappingExposure : num
}.
End Window.

(** ** The script *)
Module Viewer.

(** The loaded model: the root node [gltf.scene] and the extent of its
    geometry, measured in the root's own frame.  No callback changes
    the geometry. *)
Record Model : Type := mkModel {
  root : Object3D.t;
  geometry : Box3
}.

(** [new THREE.Box3().setFromObject(model)] for an unrotated root: the
    world-space box of the geometry under the root's transform. *)
Definition setFromObject (m : Model) : Box3 :=
  transformBox (Object3D.position (Object3D.props (root m)))
               (Object3D.scale (Object3D.props (root m)))
               (geometry m).

(** [model.traverse(callback)]. *)
Definition traverseModel (callback : Object3D.Props -> Object3D.Props)
  (m : Model) : Model :=
  mkModel (Object3D.traverse callback (root m)) (geometry m).

Definition atModelRoot (f : Object3D.Props -> Object3D.Props)
  (m : Model) : Model :=
  mkModel (Object3D.atRoot f (root m)) (geometry m).

(** References to the objects the scene holds.  The scene and the
    callbacks share these objects, so the scene keeps references and
    the objects live in one place of the state. *)
Inductive ObjRef : Type :=
| AmbientLightRef
| DirectionalLightRef
| RubberDuckRef
| Light1Ref.

Inductive TexRef : Type :=
| HdrRef.

Inductive LogEntry : Type :=
| ConsoleLog (message : string)
| ConsoleError (message : string) (error : string).

(** What exists once the top-level script has run: the parameters, the
    renderer, the scene with its two static lights, the texture cell
    the environment callback fills, and the lines the script has written
    to the console.  [background] and [environment] are the two scene
    fields; both are [null] until the environment has loaded. *)
Record World : Type := mkWorld {
  window : Window.t;
  renderer : Renderer.t;
  hdr : option Texture.t;
  background : option TexRef;
  environment : option TexRef;
  sceneChildren : list ObjRef;
  ambientLight : Light.t;
  directionalLight : Light.t;
  console : list LogEntry
}.

(** The variables the control-panel callbacks close over; they exist
    once the model callback has run. *)
Record Closure : Type := mkClosure {
  rubberDuck : Model;
  light1 : Light.t
}.

Definition Live : Type := (World * Closure)%type.

Definition withWindow (w : World) (v : Window.t) : World :=
  mkWorld v (renderer w) (hdr w) (background w) (environment w)
          (sceneChildren w) (ambientLight w) (directionalLight w) (console w).

Definition withRenderer (w : World) (r : Renderer.t) : World :=
  mkWorld (window w) r (hdr w) (background w) (environment w)
          (sceneChildren w) (ambientLight w) (directionalLight w) (console w).

Definition withHdr (w : World) (h : option Texture.t) : World :=
  mkWorld (window w) (renderer w) h (background w) (environment w)
          (sceneChildren w) (ambientLight w) (directionalLight w) (console w).

Definition withBackground (w : World) (r : option TexRef) : World :=
  mkWorld (window w) (renderer w) (hdr w) r (environment w)
          (sceneChildren w) (ambientLight w) (directionalLight w) (console w).

Definition withEnvironment (w : World) (r : option TexRef) : World :=
  mkWorld (window w) (renderer w) (hdr w) (background w) r
          (sceneChildren w) (ambientLight w) (directionalLight w) (console w).

(** [scene.add(object)]. *)
Definition sceneAdd (w : World) (r : ObjRef) : World :=
  mkWorld (window w) (renderer w) (hdr w) (background w) (environment w)
          (sceneChildren w ++ [r]) (ambientLight w) (directionalLight w)
          (console w).

Definition consoleWrite (w : World) (e : LogEntry) : World :=
  mkWorld (window w) (renderer w) (hdr w) (background w) (environment w)
          (sceneChildren w) (ambientLight w) (directionalLight w)
          (console w ++ [e]).

Definition withRubberDuck (c : Closure) (m : Model) : Closure :=
  mkClosure m (light1 c).

Definition withLight1 (c : Closure) (l : Light.t) : Closure :=
  mkClosure (rubberDuck c) l.

(** *** The top-level script (lines 8-27, 160-167, 185-201)

    The two [load] calls only start the loads; their callbacks run
    later, after the whole script has run.  So when the first callback
    runs the lights are in the scene and the parameters have their
    initial values. *)
Definition initialWindow : Window.t :=
  Window.make
    (Fin (2257 # 1000)) (Fin 3) (Fin (1 # 4)) (Fin 3) (Fin (- 9 # 4)) (Fin 0)
    (Fin (3 # 10)) (Fin (8 # 10)) (Fin (3 # 10)) (Fin (8 # 10))
    CineonToneMapping (Fin (1 # 2)).

Definition boot : World :=
  mkWorld
    initialWindow
    (Renderer.make (THREE CineonToneMapping) (Fin (1 # 2)))
    None None None
    [AmbientLightRef; DirectionalLightRef]
    (Light.make Light.Ambient 16777215 (Fin (1 # 2)) zero3 false)
    (Light.make Light.Directional 16777215 (Fin 1)
       (vec3 (Fin 5) (Fin 10) (Fin (15 # 2))) true)
    [].

(** *** The environment callback (lines 31-35) *)
Definition onEnvironmentLoad (hdr0 : Texture.t) (w : World) : World :=
  let hdr1 :=
    Texture.make Texture.EquirectangularReflectionMapping
                 (Texture.intensity hdr0) in
  let w := withHdr w (Some hdr1) in
  let w := withBackground w (Some HdrRef) in
  withEnvironment w (Some HdrRef).

(** *** The model callback (lines 41-155) *)

(** Lines 46-55: fit the model to the scene. *)
Definition maxDimensionOf (box : Box3) : num :=
  let size := getSize box in
  max3 (x size) (y size) (z size).

Definition scaleFactorOf (box : Box3) : num :=
  div (Fin 5) (maxDimensionOf box).

Definition normalize (rubberDuck : Model) : Model :=
  let box := setFromObject rubberDuck in
  let scaleFactor := scaleFactorOf box in
  let rubberDuck :=
    atModelRoot (fun p =>
      Object3D.withScale p (setScalar (Object3D.scale p) scaleFactor))
      rubberDuck in
  let center := getCenter box in
  let rubberDuck :=
    atModelRoot (fun p =>
      Object3D.withPosition p (vsub (Object3D.position p) center))
      rubberDuck in
  atModelRoot (fun p =>
    Object3D.withPosition p
      (setY (Object3D.position p) (mul (neg (y (bmin box))) scaleFactor)))
    rubberDuck.

(** Lines 58-66: the one-time material pass. *)
Definition loadPass (win : Window.t) (child : Object3D.Props)
  : Object3D.Props :=
  match Object3D.kind child with
  | Object3D.Mesh material =>
      let material :=
        Material.make (Window.defaultMetalness win)
                      (Window.defaultRoughness win)
                      (Material.toneMapping material)
                      (Material.toneMappingExposure material)
                      true (S (Material.version material)) in
      Object3D.make (Object3D.Mesh material)
                    (Object3D.position child) (Object3D.scale child)
                    (Object3D.rotation child) true true
  | Object3D.Group => child
  end.

(** The whole callback.  The control panel is built here, so its
    callbacks exist from now on; lines 150-154 only aim the camera and
    the orbit controls, which are not part of [World]. *)
Definition onLoad (gltf : Model) (w : World) : Live :=
  let w := consoleWrite w (ConsoleLog "Rubber Duck loaded") in
  let rubberDuck := normalize gltf in
  let rubberDuck := traverseModel (loadPass (window w)) rubberDuck in
  let w := sceneAdd w RubberDuckRef in
  let light1 :=
    Light.make (Light.Point (Fin 50)) 16777215
               (Window.lightIntensity (window w)) zero3 false in
  let light1 :=
    Light.make (Light.kind light1) (Light.color light1)
               (Light.intensity light1)
               (set (Light.position light1)
                    (Window.lightX (window w)) (Window.lightY (window w))
                    (Window.lightZ (window w)))
               (Light.castShadow light1) in
  let w := sceneAdd w Light1Ref in
  (w, mkClosure rubberDuck light1).

(** Line 157: the error callback of the model load. *)
Definition onLoadError (error : string) (w : World) : World :=
  consoleWrite w (ConsoleError "Error loading Rubber Duck:" error).

(** *** The callbacks of the control panel (lines 76-128, 140-148)

    A callback either returns or throws; what it wrote before throwing
    stays written. *)
Inductive Completion : Type :=
| Normal
| Throw (error : string).

Definition TypeError : string :=
  "TypeError: Cannot set properties of null (setting 'intensity')".

(** The write a callback makes to every mesh of the model. *)
Definition eachMesh (f : Material.t -> Material.t) (child : Object3D.Props)
  : Object3D.Props :=
  match Object3D.kind child with
  | Object3D.Mesh material =>
      Object3D.make (Object3D.Mesh (f material))
                    (Object3D.position child) (Object3D.scale child)
                    (Object3D.rotation child)
                    (Object3D.castShadow child) (Object3D.receiveShadow child)
  | Object3D.Group => child
  end.

(** Lines 76-83. *)
Definition onMetalness (l : Live) : Completion * Live :=
  let '(w, c) := l in
  let duck :=
    traverseModel (eachMesh (fun m =>
      Material.make (Window.metalness (window w)) (Material.roughness m)
                    (Material.toneMapping m) (Material.toneMappingExposure m)
                    true (S (Material.version m))))
      (rubberDuck c) in
  (Normal, (w, withRubberDuck c duck)).

(** Lines 84-91. *)
Definition onRoughness (l : Live) : Completion * Live :=
  let '(w, c) := l in
  let duck :=
    traverseModel (eachMesh (fun m =>
      Material.make (Material.metalness m) (Window.roughness (window w))
                    (Material.toneMapping m) (Material.toneMappingExposure m)
                    true (S (Material.version m))))
      (rubberDuck c) in
  (Normal, (w, withRubberDuck c duck)).

(** Lines 101-112. *)
Definition onToneMapping (l : Live) : Completion * Live :=
  let '(w, c) := l in
  let toneMappingValue := THREE (Window.toneMapping (window w)) in
  let w :=
    withRenderer w
      (Renderer.make toneMappingValue
                     (Renderer.toneMappingExposure (renderer w))) in
  let w :=
    withRenderer w
      (Renderer.make (Renderer.toneMapping (renderer w))
                     (Window.toneMappingExposure (window w))) in
  let duck :=
    traverseModel (eachMesh (fun m =>
      Material.make (Material.metalness m) (Material.roughness m)
                    (Some toneMappingValue)
                    (Some (Window.toneMappingExposure (window w)))
                    true (S (Material.version m))))
      (rubberDuck c) in
  (Normal, (w, withRubberDuck c duck)).

(** Lines 115-117. *)
Definition onExposure (l : Live) : Completion * Live :=
  let '(w, c) := l in
  let w :=
    withRenderer w
      (Renderer.make (Renderer.toneMapping (renderer w))
                     (Window.toneMappingExposure (window w))) in
  (Normal, (w, c)).

(** Lines 140-142.  [scene.environment] is read without a test: when
    it is [null] the property write throws. *)
Definition updateEnvironment (l : Live) : Completion * Live :=
  let '(w, c) := l in
  match environment w with
  | None => (Throw TypeError, (w, c))
  | Some HdrRef =>
      let w :=
        withHdr w
          (option_map (fun t =>
             Texture.make (Texture.mapping t)
                          (Some (Window.envMapIntensity (window w))))
             (hdr w)) in
      (Normal, (w, c))
  end.

(** Lines 145-148. *)
Definition updateLights (l : Live) : Completion * Live :=
  let '(w, c) := l in
  let light := light1 c in
  let light :=
    Light.make (Light.kind light) (Light.color light)
               (Window.lightIntensity (window w))
               (Light.position light) (Light.castShadow light) in
  let light :=
    Light.make (Light.kind light) (Light.color light) (Light.intensity light)
               (set (Light.position light)
                    (Window.lightX (window w)) (Window.lightY (window w))
                    (Window.lightZ (window w)))
               (Light.castShadow light) in
  (Normal, (w, withLight1 c light)).

(** Lines 126-128. *)
Definition onRotation (l : Live) : Completion * Live :=
  let '(w, c) := l in
  let duck :=
    atModelRoot (fun p =>
      Object3D.withRotation p
        (vec3 (x (Object3D.rotation p)) (Window.rotation (window w))
              (z (Object3D.rotation p))))
      (rubberDuck c) in
  (Normal, (w, withRubberDuck c duck)).

(** A change made on the control panel: which control, and the new
    value.  The control first stores the value in its field of
    [window], then calls the callback registered with [onChange]. *)
Inductive Change : Type :=
| Metalness (value : num)
| Roughness (value : num)
| ToneMapping (value : ToneName)
| Exposure (value : num)
| EnvMapIntensity (value : num)
| LightIntensity (value : num)
| LightX (value : num)
| LightY (value : num)
| LightZ (value : num)
| Rotation (value : num).

Definition store (ch : Change) (win : Window.t) : Window.t :=
  let '(Window.make envMapIntensity lightIntensity lightX lightY lightZ
          rotation defaultMetalness defaultRoughness metalness roughness
          toneMapping toneMappingExposure) := win in
  match ch with
  | Metalness v =>
      Window.make envMapIntensity lightIntensity lightX lightY lightZ
        rotation defaultMetalness defaultRoughness v roughness
        toneMapping toneMappingExposure
  | Roughness v =>
      Window.make envMapIntensity lightIntensity lightX lightY lightZ
        rotation defaultMetalness defaultRoughness metalness v
        toneMapping toneMappingExposure
  | ToneMapping v =>
      Window.make envMapIntensity lightIntensity lightX lightY lightZ
        rotation defaultMetalness defaultRoughness metalness roughness
        v toneMappingExposure
  | Exposure v =>
      Window.make envMapIntensity lightIntensity lightX lightY lightZ
        rotation defaultMetalness defaultRoughness metalness roughness
        toneMapping v
  | EnvMapIntensity v =>
      Window.make v lightIntensity lightX lightY lightZ
        rotation defaultMetalness defaultRoughness metalness roughness
        toneMapping toneMappingExposure
  | LightIntensity v =>
      Window.make envMapIntensity v lightX lightY lightZ
        rotation defaultMetalness defaultRoughness metalness roughness
        toneMapping toneMappingExposure
  | LightX v =>
      Window.make envMapIntensity lightIntensity v lightY lightZ
        rotation defaultMetalness defaultRoughness metalness roughness
        toneMapping toneMappingExposure
  | LightY v =>
      Window.make envMapIntensity lightIntensity lightX v lightZ
        rotation defaultMetalness defaultRoughness metalness roughness
        toneMapping toneMappingExposure
  | LightZ v =>
      Window.make envMapIntensity lightIntensity lightX lightY v
        rotation defaultMetalness defaultRoughness metalness roughness
        toneMapping toneMappingExposure
  | Rotation v =>
      Window.make envMapIntensity lightIntensity lightX lightY lightZ
        v defaultMetalness defaultRoughness metalness roughness
        toneMapping toneMappingExposure
  end.

(** The callback each control was given (lines 76-128). *)
Definition callback (ch : Change) : Live -> Completion * Live :=
  match ch with
  | Metalness _ => onMetalness
  | Roughness _ => onRoughness
  | ToneMapping _ => onToneMapping
  | Exposure _ => onExposure
  | EnvMapIntensity _ => updateEnvironment
  | LightIntensity _ | LightX _ | LightY _ | LightZ _ => updateLights
  | Rotation _ => onRotation
  end.

Definition change (ch : Change) (l : Live) : Completion * Live :=
  let '(w, c) := l in
  callback ch (withWindow w (store ch (window w)), c).

(** *** Events

    After the script has run, the program only reacts: to the end of
    each load (once each, success or failure, in either order) and to
    changes on the control panel, which exists once the model callback
    has run.  The environment load was started without an error
    callback (line 31), so its failure runs no code of the script. *)
Inductive Event : Type :=
| EnvironmentLoaded (hdr : Texture.t)
| EnvironmentFailed (error : string)
| ModelLoaded (gltf : Model)
| ModelFailed (error : string)
| Changed (ch : Change).

Record App : Type := mkApp {
  world : World;
  closure : option Closure;
  environmentPending : bool;
  modelPending : bool
}.

Definition start : App := mkApp boot None true true.

(** One event; [None] when the event cannot happen in this state. *)
Definition dispatch (e : Event) (a : App) : option App :=
  match e with
  | EnvironmentLoaded hdr =>
      if environmentPending a then
        Some (mkApp (onEnvironmentLoad hdr (world a)) (closure a)
                    false (modelPending a))
      else None
  | EnvironmentFailed _ =>
      if environmentPending a then
        Some (mkApp (world a) (closure a) false (modelPending a))
      else None
  | ModelLoaded gltf =>
      if modelPending a then
        let '(w, c) := onLoad gltf (world a) in
        Some (mkApp w (Some c) (environmentPending a) false)
      else None
  | ModelFailed error =>
      if modelPending a then
        Some (mkApp (onLoadError error (world a)) (closure a)
                    (environmentPending a) false)
      else None
  | Changed ch =>
      match closure a with
      | Some c =>
          let '(_, (w, c)) := change ch (world a, c) in
          Some (mkApp w (Some c) (environmentPending a) (modelPending a))
      | None => None
      end
  end.

Fixpoint run (events : list Event) (a : App) : option App :=
  match events with
  | [] => Some a
  | e :: events =>
      match dispatch e a with
      | Some a => run events a
      | None => None
      end
  end.

(** What the scene holds behind a reference. *)
Inductive SceneObject : Type :=
| ALight (l : Light.t)
| AModel (m : Model).

Definition resolve (a : App) (r : ObjRef) : option SceneObject :=
  match r with
  | AmbientLightRef => Some (ALight (ambientLight (world a)))
  | DirectionalLightRef => Some (ALight (directionalLight (world a)))
  | RubberDuckRef => option_map (fun c => AModel (rubberDuck c)) (closure a)
  | Light1Ref => option_map (fun c => ALight (light1 c)) (closure a)
  end.

End Viewer.

Export Viewer.

(** ** The camera and the size of the output

    The part of the script that deals with the viewport: the set-up of
    the camera and of the renderer's size (lines 9-17), the aim of the
    camera at the loaded model (lines 150-153) and the resize handler
    (lines 178-183).  These objects are disjoint from [World]. *)
Module Viewport.

(** What a projection matrix is computed from.  The matrix itself is
    the library's; the model keeps the four values it was last
    computed from. *)
Record Projection : Type := mkProjection {
  fromFov : num;
  fromAspect : num;
  fromNear : num;
  fromFar : num
}.

Record Camera : Type := mkCamera {
  fov : num;
  aspect : num;
  near : num;
  far : num;
  position : Vector3;
  projectionMatrix : Projection
}.

(** [camera.updateProjectionMatrix()]. *)
Definition updateProjectionMatrix (c : Camera) : Camera :=
  mkCamera (fov c) (aspect c) (near c) (far c) (position c)
           (mkProjection (fov c) (aspect c) (near c) (far c)).

(** [new THREE.PerspectiveCamera(fov, aspect, near, far)]: the
    constructor computes the projection matrix. *)
Definition PerspectiveCamera (fov aspect near far : num) : Camera :=
  updateProjectionMatrix
    (mkCamera fov aspect near far zero3
              (mkProjection fov aspect near far)).

Definition withAspect (c : Camera) (a : num) : Camera :=
  mkCamera (fov c) a (near c) (far c) (position c) (projectionMatrix c).

Definition withCameraPosition (c : Camera) (v : Vector3) : Camera :=
  mkCamera (fov c) (aspect c) (near c) (far c) v (projectionMatrix c).

(** The camera, the size given to [renderer.setSize], and the target
    of the orbit controls. *)
Record View : Type := mkView {
  camera : Camera;
  width : num;
  height : num;
  target : Vector3
}.

(** The size of the browser window, in whole pixels. *)
Definition pixels (n : Z) : num := Fin (inject_Z n).

(** Lines 9-17 and 24: the camera and the renderer are sized from
    [window.innerWidth] and [window.innerHeight] as they are when the
    script runs. *)
Definition setup (innerWidth innerHeight : Z) : View :=
  let w := pixels innerWidth in
  let h := pixels innerHeight in
  let camera :=
    PerspectiveCamera (Fin 75) (div w h) (Fin (1 # 10)) (Fin 1000) in
  let camera :=
    withCameraPosition camera
      (vec3 (x (position camera)) (y (position camera)) (Fin 5)) in
  mkView camera w h zero3.

(** Lines 178-182. *)
Definition handleWindowResize (innerWidth innerHeight : Z) (v : View)
  : View :=
  let camera :=
    withAspect (camera v) (div (pixels innerWidth) (pixels innerHeight)) in
  let camera := updateProjectionMatrix camera in
  mkView camera (pixels innerWidth) (pixels innerHeight) (target v).

(** Lines 151-153, in the model callback: the controls aim at the
    position of the model's root and the camera is put two units above
    and ten units in front of it.  ([controls.update()], line 154, is
    the library's and is not modelled.) *)
Definition frameCamera (rubberDuck : Model) (v : View) : View :=
  let cameraDistance := Fin 10 in
  let p := Object3D.position (Object3D.props (root rubberDuck)) in
  let target := vec3 (x p) (y p) (z p) in
  let camera :=
    withCameraPosition (camera v)
      (set (position (camera v))
           (x p) (add (y p) (Fin 2)) (add (z p) cameraDistance)) in
  mkView camera (width v) (height v) target.

(** The viewport after a series of resizes, oldest first. *)
Fixpoint resizes (sizes : list (Z * Z)) (v : View) : View :=
  match sizes with
  | [] => v
  | (w, h) :: sizes => resizes sizes (handleWindowResize w h v)
  end.

End Viewport.

(** * Vocabulary of the properties *)

(** ** Finite numbers, vectors and boxes *)

(** [denotes a p]: the number [a] is finite and is the rational [p]. *)
Definition denotes (a : num) (p : Q) : Prop := a =n= Fin p.

Definition vdenotes (v : Vector3) (a b c : Q) : Prop :=
  denotes (x v) a /\ denotes (y v) b /\ denotes (z v) c.

(** [spans b lo hi]: the box is finite, from corner [lo] to corner
    [hi], and not empty. *)
Record spans (b : Box3) (x0 y0 z0 x1 y1 z1 : Q) : Prop := mkSpans {
  spans_min : vdenotes (bmin b) x0 y0 z0;
  spans_max : vdenotes (bmax b) x1 y1 z1;
  spans_x : x0 <= x1;
  spans_y : y0 <= y1;
  spans_z : z0 <= z1
}.

(** The largest extent of a box given by its two corners. *)
Definition largestExtent (x0 y0 z0 x1 y1 z1 : Q) : Q :=
  Qmax (Qmax (x1 - x0) (y1 - y0)) (z1 - z0).

(** The transform the model loader gives the root of a scene. *)
Definition identityTransform (p : Object3D.Props) : Prop :=
  Object3D.position p = zero3
  /\ Object3D.scale p = one3
  /\ Object3D.rotation p = zero3.

(** ** The range of doubles

    The arithmetic of [Num] is exact on finite numbers.  It is the
    arithmetic of the language, up to rounding, as long as no result
    leaves the range of doubles; beyond [maxDouble] the language gives
    an infinity.  The properties of the fit are stated for models of
    moderate size and prove that every number computed stays in
    range. *)

(** The largest finite double, and the smallest positive normal one. *)
Definition maxDouble : Q := inject_Z (2 ^ 1024 - 2 ^ 971).
Definition minNormal : Q := 1 / inject_Z (2 ^ 1022).

(** [within r a]: the number [a] is finite, of magnitude [r] at most. *)
Definition within (r : Q) (a : num) : Prop :=
  exists q, a =n= Fin q /\ - r <= q /\ q <= r.

Definition inDoubleRange (a : num) : Prop := within maxDouble a.

(** A box of moderate size: no coordinate beyond [2^500] in magnitude,
    and a largest extent of [2^-500] at least. *)
Definition fitRange : Q := inject_Z (2 ^ 500).

Definition moderate (x0 y0 z0 x1 y1 z1 : Q) : Prop :=
  (- fitRange <= x0 /\ x0 <= fitRange)
  /\ (- fitRange <= y0 /\ y0 <= fitRange)
  /\ (- fitRange <= z0 /\ z0 <= fitRange)
  /\ (- fitRange <= x1 /\ x1 <= fitRange)
  /\ (- fitRange <= y1 /\ y1 <= fitRange)
  /\ (- fitRange <= z1 /\ z1 <= fitRange)
  /\ 1 / fitRange <= largestExtent x0 y0 z0 x1 y1 z1.

Definition components (v : Vector3) : list num := [x v; y v; z v].

(** Every number that lines 46-55 compute for a loaded model, in the
    order of the script, followed by the numbers that make the
    bounding box of the fitted model and its extents. *)
Definition fitValues (gltf : Model) : list num :=
  let box := setFromObject gltf in
  let scaleFactor := scaleFactorOf box in
  let fitted := normalize gltf in
  let p := Object3D.props (root fitted) in
  components (getSize box)
  ++ [maxDimensionOf box; scaleFactor]
  ++ components (addVectors (bmin box) (bmax box))
  ++ components (getCenter box)
  ++ components (vsub (Object3D.position (Object3D.props (root gltf)))
                      (getCenter box))
  ++ [neg (y (bmin box)); mul (neg (y (bmin box))) scaleFactor]
  ++ components (Object3D.position p)
  ++ components (Object3D.scale p)
  ++ components (multiply (bmin (geometry gltf)) (Object3D.scale p))
  ++ components (multiply (bmax (geometry gltf)) (Object3D.scale p))
  ++ components (applyTransform (Object3D.position p) (Object3D.scale p)
                                (bmin (geometry gltf)))
  ++ components (applyTransform (Object3D.position p) (Object3D.scale p)
                                (bmax (geometry gltf)))
  ++ components (bmin (setFromObject fitted))
  ++ components (bmax (setFromObject fitted))
  ++ components (getSize (setFromObject fitted))
  ++ [maxDimensionOf (setFromObject fitted)].

(** ** A sample model

    A group with two meshes, one of them nested, whose geometry spans
    [(0,0,0)] to [(2,10,4)]; the root has the identity transform the
    model loader gives a scene. *)
Definition sampleMaterial : Material.t :=
  Material.make (Fin 1) (Fin 1) None None false 0.

Definition sampleNode (k : Object3D.Kind) : Object3D.Props :=
  Object3D.make k zero3 one3 zero3 false false.

Definition sampleRoot : Object3D.t :=
  Object3D.Node (sampleNode Object3D.Group)
    [ Object3D.Node (sampleNode (Object3D.Mesh sampleMaterial)) [];
      Object3D.Node (sampleNode Object3D.Group)
        [ Object3D.Node (sampleNode (Object3D.Mesh sampleMaterial)) [] ] ].

Definition sampleModel : Model :=
  mkModel sampleRoot
          (box3 zero3 (vec3 (Fin 2) (Fin 10) (Fin 4))).

(** The same tree around a single point: every extent is zero. *)
Definition pointModel : Model :=
  mkModel sampleRoot
          (box3 (vec3 (Fin 1) (Fin 1) (Fin 1)) (vec3 (Fin 1) (Fin 1) (Fin 1))).

(** A model without any geometry. *)
Definition emptyModel : Model :=
  mkModel (Object3D.Node (sampleNode Object3D.Group) []) emptyBox.

Definition sampleTexture : Texture.t :=
  Texture.make Texture.UVMapping None.


(** ** Events and controls *)

Definition isEnvironmentEvent (e : Event) : bool :=
  match e with
  | EnvironmentLoaded _ | EnvironmentFailed _ => true
  | _ => false
  end.

Definition isModelEvent (e : Event) : bool :=
  match e with
  | ModelLoaded _ | ModelFailed _ => true
  | _ => false
  end.


(** What a callback writes to one mesh material, given the parameters
    as they are once the control has stored its value. *)
Definition materialWrite (ch : Change) (win : Window.t) (m : Material.t)
  : Material.t :=
  match ch with
  | Metalness _ =>
      Material.make (Window.metalness win) (Material.roughness m)
                    (Material.toneMapping m) (Material.toneMappingExposure m)
                    true (S (Material.version m))
  | Roughness _ =>
      Material.make (Material.metalness m) (Window.roughness win)
                    (Material.toneMapping m) (Material.toneMappingExposure m)
                    true (S (Material.version m))
  | ToneMapping _ =>
      Material.make (Material.metalness m) (Material.roughness m)
                    (Some (THREE (Window.toneMapping win)))
                    (Some (Window.toneMappingExposure win))
                    true (S (Material.version m))
  | _ => m
  end.

(** The three stages of the program: the model load is pending, the
    model has loaded, the model load has failed. *)
Inductive Stage : Type :=
| Pending
| Running
| Failed (error : string).

Definition inStage (a : App) (st : Stage) : Prop :=
  match st with
  | Pending =>
      modelPending a = true /\ closure a = None
      /\ sceneChildren (world a) = [AmbientLightRef; DirectionalLightRef]
      /\ console (world a) = []
  | Running =>
      modelPending a = false /\ closure a <> None
      /\ sceneChildren (world a)
         = [AmbientLightRef; DirectionalLightRef; RubberDuckRef; Light1Ref]
      /\ console (world a) = [ConsoleLog "Rubber Duck loaded"]
  | Failed error =>
      modelPending a = false /\ closure a = None
      /\ sceneChildren (world a) = [AmbientLightRef; DirectionalLightRef]
      /\ console (world a)
         = [ConsoleError "Error loading Rubber Duck:" error]
  end.

(** The state after the environment has failed to load and the sample
    model has loaded. *)
Definition afterFailedEnvironment : App :=
  mkApp (fst (onLoad sampleModel boot)) (Some (snd (onLoad sampleModel boot)))
        false false.

(** ** States up to the update counters *)




(** ** Induction on trees of nodes *)
Section TreeInduction.

Variable P : Object3D.t -> Prop.
Hypothesis step : forall p ch, Forall P ch -> P (Object3D.Node p ch).

Fixpoint tree_ind (o : Object3D.t) : P o :=
  match o with
  | Object3D.Node p ch =>
      step p ch
        ((fix all (l : list Object3D.t) : Forall P l :=
            match l with
            | [] => Forall_nil P
            | c :: l => Forall_cons c (tree_ind c) (all l)
            end) ch)
  end.

End TreeInduction.

(** ** Sample runs *)

(** The state a run from [start] ends in ([start] itself if the run is
    not possible). *)
Definition stateAfter (events : list Event) : App :=
  match run events start with Some a => a | None => start end.

(** A run with both loads and three changes on the control panel. *)
Definition sampleRun : list Event :=
  [ ModelLoaded sampleModel;
    Changed (ToneMapping ACESFilmicToneMapping);
    EnvironmentLoaded sampleTexture;
    Changed (Exposure (Fin 2));
    Changed (Metalness (Fin (1 # 2)));
    Changed (LightY (Fin 1));
    Changed (Rotation (Fin 1)) ].

(** The closure of a state in which the model has loaded. *)
Definition closureOf (a : App) : Closure :=
  match closure a with
  | Some c => c
  | None => mkClosure sampleModel (ambientLight boot)
  end.

(** The stage a run from [start] ends in: the first model event
    decides. *)
Fixpoint stageOf (events : list Event) : Stage :=
  match events with
  | [] => Pending
  | ModelLoaded _ :: _ => Running
  | ModelFailed error :: _ => Failed error
  | _ :: events => stageOf events
  end.

(** A run in which the model fails to load. *)
Definition failedRun : list Event :=
  [ EnvironmentLoaded sampleTexture; ModelFailed "404" ].

(** A change made on the control of the environment's intensity. *)
Definition isIntensityChange (e : Event) : bool :=
  match e with Changed (EnvMapIntensity _) => true | _ => false end.

(** ** The viewport *)

(** The viewport is sized for a window of [w] by [h] pixels: the
    renderer has that size, the camera that aspect, and the projection
    matrix was computed from the camera as it is. *)
Definition sizedFor (v : Viewport.View) (w h : Z) : Prop :=
  Viewport.width v = Viewport.pixels w
  /\ Viewport.height v = Viewport.pixels h
  /\ Viewport.aspect (Viewport.camera v)
     = div (Viewport.pixels w) (Viewport.pixels h)
  /\ Viewport.projectionMatrix (Viewport.camera v)
     = Viewport.mkProjection (Fin 75) (Viewport.aspect (Viewport.camera v))
                             (Fin (1 # 10)) (Fin 1000).

(** ** What a control writes to *)

Inductive Target : Type :=
| MeshMaterials
| RendererToneMapping
| EnvironmentTexture
| PointLight
| ModelRotation.

Definition targets (ch : Change) : list Target :=
  match ch with
  | Metalness _ | Roughness _ => [MeshMaterials]
  | ToneMapping _ => [RendererToneMapping; MeshMaterials]
  | Exposure _ => [RendererToneMapping]
  | EnvMapIntensity _ => [EnvironmentTexture]
  | LightIntensity _ | LightX _ | LightY _ | LightZ _ => [PointLight]
  | Rotation _ => [ModelRotation]
  end.

(** * Properties *)

(** ** Trees of nodes *)

Lemma nodes_traverse (f : Object3D.Props -> Object3D.Props) (o : Object3D.t) :
  Object3D.nodes (Object3D.traverse f o) = map f (Object3D.nodes o).
Proof.
  induction o as [p ch IH] using tree_ind; simpl.
  f_equal.
  induction IH as [|c ch Hc _ IHch]; simpl; [reflexivity|].
  rewrite map_app, Hc, IHch. reflexivity.
Qed.

Lemma traverse_idempotent (f : Object3D.Props -> Object3D.Props) :
  (forall p, f (f p) = f p) ->
  forall o, Object3D.traverse f (Object3D.traverse f o) = Object3D.traverse f o.
Proof.
  intros Hf o.
  induction o as [p ch IH] using tree_ind; simpl.
  rewrite Hf. f_equal.
  rewrite map_map.
  induction IH as [|c ch Hc _ IHch]; simpl; [reflexivity|].
  rewrite Hc, IHch. reflexivity.
Qed.

Lemma materials_eachMesh (f : Material.t -> Material.t) (o : Object3D.t) :
  Object3D.materials (Object3D.traverse (eachMesh f) o)
  = map f (Object3D.materials o).
Proof.
  unfold Object3D.materials. rewrite nodes_traverse.
  induction (Object3D.nodes o) as [|p l IH]; simpl; [reflexivity|].
  rewrite map_app, IH. f_equal.
  unfold eachMesh, Object3D.materialOf.
  destruct (Object3D.kind p) eqn:E; simpl; [rewrite E|]; reflexivity.
Qed.

Lemma materials_loadPass (win : Window.t) (o : Object3D.t) :
  Object3D.materials (Object3D.traverse (loadPass win) o)
  = map (fun m =>
           Material.make (Window.defaultMetalness win)
                         (Window.defaultRoughness win)
                         (Material.toneMapping m)
                         (Material.toneMappingExposure m) true
                         (S (Material.version m)))
        (Object3D.materials o).
Proof.
  unfold Object3D.materials. rewrite nodes_traverse.
  induction (Object3D.nodes o) as [|p l IH]; simpl; [reflexivity|].
  rewrite map_app, IH. f_equal.
  unfold loadPass, Object3D.materialOf.
  destruct (Object3D.kind p) eqn:E; simpl; [rewrite E|]; reflexivity.
Qed.

Lemma materials_atRoot_transform (f : Object3D.Props -> Object3D.Props)
  (o : Object3D.t) :
  (forall p, Object3D.kind (f p) = Object3D.kind p) ->
  Object3D.materials (Object3D.atRoot f o) = Object3D.materials o.
Proof.
  intros Hf. destruct o as [p ch]. unfold Object3D.materials. simpl.
  unfold Object3D.materialOf. rewrite Hf. reflexivity.
Qed.

Lemma eachMesh_idempotent (f : Material.t -> Material.t) :
  (forall m, f (f m) = f m) ->
  forall p, eachMesh f (eachMesh f p) = eachMesh f p.
Proof.
  intros Hf [k pos scl rot cs rs]. unfold eachMesh. simpl.
  destruct k; simpl; [reflexivity|]. rewrite Hf. reflexivity.
Qed.

(** ** The bindings of the control panel *)

Lemma store_idempotent (ch : Change) (win : Window.t) :
  store ch (store ch win) = store ch win.
Proof. destruct win, ch; reflexivity. Qed.

Lemma callback_keeps_window (ch : Change) (l : Live) :
  window (fst (snd (callback ch l))) = window (fst l).
Proof.
  destruct l as [w c], ch; simpl; try reflexivity.
  destruct (environment w) as [[]|]; reflexivity.
Qed.

Lemma withWindow_same (w : World) : withWindow w (window w) = w.
Proof. destruct w; reflexivity. Qed.

Lemma atRoot_idempotent (f : Object3D.Props -> Object3D.Props) :
  (forall p, f (f p) = f p) ->
  forall o, Object3D.atRoot f (Object3D.atRoot f o) = Object3D.atRoot f o.
Proof. intros Hf [p ch]. simpl. rewrite Hf. reflexivity. Qed.





Lemma isMesh_eachMesh (f : Material.t -> Material.t) (p : Object3D.Props) :
  Object3D.isMesh (eachMesh f p) = Object3D.isMesh p.
Proof.
  unfold eachMesh, Object3D.isMesh.
  destruct (Object3D.kind p) eqn:E; cbn; rewrite ?E; reflexivity.
Qed.

(** What a change writes to the materials, to the parameters and to
    the tree of the model. *)
Lemma change_materials (ch : Change) (l : Live) :
  Object3D.materials (root (rubberDuck (snd (snd (change ch l)))))
  = map (materialWrite ch (store ch (window (fst l))))
        (Object3D.materials (root (rubberDuck (snd l)))).
Proof.
  destruct l as [[win r h b e s al dl co] c]. destruct win.
  destruct ch; cbn -[Object3D.materials];
    try (rewrite materials_eachMesh; reflexivity);
    try (rewrite map_id; reflexivity).
  - destruct e as [[]|]; cbn -[Object3D.materials]; rewrite map_id;
      reflexivity.
  - rewrite materials_atRoot_transform; [|reflexivity].
    rewrite map_id. reflexivity.
Qed.

Lemma change_window (ch : Change) (l : Live) :
  window (fst (snd (change ch l))) = store ch (window (fst l)).
Proof.
  destruct l as [w c]. unfold change.
  rewrite callback_keeps_window. destruct w; reflexivity.
Qed.

Lemma change_kinds (ch : Change) (l : Live) :
  map Object3D.isMesh
      (Object3D.nodes (root (rubberDuck (snd (snd (change ch l))))))
  = map Object3D.isMesh (Object3D.nodes (root (rubberDuck (snd l)))).
Proof.
  destruct l as [[win r h b e s al dl co] [[o g] li]]. destruct win.
  destruct ch; cbn -[Object3D.nodes Object3D.traverse Object3D.atRoot];
    try reflexivity;
    try (rewrite nodes_traverse, map_map; apply map_ext;
         intros p; apply isMesh_eachMesh).
  - destruct e as [[]|]; reflexivity.
  - destruct o as [p chn]. reflexivity.
Qed.


(** C5.  The exposure callback writes the new value to the renderer's
    tone-mapping exposure, and leaves the model, hence every mesh
    material with its own exposure field, as it was. *)
Theorem C5_exposure_renderer_only (v : num) (l : Live) :
  let r := change (Exposure v) l in
  fst r = Normal
  /\ Renderer.toneMappingExposure (renderer (fst (snd r))) = v
  /\ Renderer.toneMapping (renderer (fst (snd r)))
     = Renderer.toneMapping (renderer (fst l))
  /\ snd (snd r) = snd l
  /\ Object3D.materials (root (rubberDuck (snd (snd r))))
     = Object3D.materials (root (rubberDuck (snd l))).
Proof.
  destruct l as [[win r h b e s al dl co] c]. destruct win. simpl.
  repeat split.
Qed.





(** C10.  The tone-mapping callback also writes the stored exposure:
    after it, the renderer's exposure and the exposure of every mesh
    material equal the exposure parameter.  The materials are those
    the model had, one for one, each with the exposure written to it;
    the tree of the model is kept.  The exposure callback itself
    leaves every mesh material as it was. *)
Theorem C10_mode_change_reapplies_exposure (v : ToneName) (e : num) (l : Live) :
  let r := change (ToneMapping v) l in
  let exposure := Window.toneMappingExposure (window (fst (snd r))) in
  exposure = Window.toneMappingExposure (window (fst l))
  /\ Renderer.toneMappingExposure (renderer (fst (snd r))) = exposure
  /\ Forall (fun m => Material.toneMappingExposure m = Some exposure)
       (Object3D.materials (root (rubberDuck (snd (snd r)))))
  /\ Object3D.materials
       (root (rubberDuck (snd (snd (change (Exposure e) l)))))
     = Object3D.materials (root (rubberDuck (snd l)))
  /\ map Material.toneMappingExposure
         (Object3D.materials (root (rubberDuck (snd (snd r)))))
     = map (fun _ => Some exposure)
           (Object3D.materials (root (rubberDuck (snd l))))
  /\ map Object3D.isMesh
         (Object3D.nodes (root (rubberDuck (snd (snd r)))))
     = map Object3D.isMesh (Object3D.nodes (root (rubberDuck (snd l)))).
Proof.
  intros r exposure. subst r exposure.
  pose proof (change_materials (ToneMapping v) l) as Hm.
  pose proof (change_kinds (ToneMapping v) l) as Hk.
  destruct l as [[win r h b en s al dl co] c]. destruct win.
  cbn [fst snd store materialWrite Window.toneMapping
       Window.toneMappingExposure window] in Hm.
  split; [reflexivity|]. split; [reflexivity|].
  split; [|split; [reflexivity | split; [|exact Hk]]].
  - rewrite Hm. apply Forall_forall.
    intros m Hin. apply in_map_iff in Hin. destruct Hin as [m0 [<- _]].
    reflexivity.
  - rewrite Hm, map_map. reflexivity.
Qed.

(** ** Runs of the program *)

Lemma run_app (l1 l2 : list Event) (a : App) :
  run (l1 ++ l2) a
  = match run l1 a with Some a1 => run l2 a1 | None => None end.
Proof.
  revert a. induction l1 as [|e l1 IH]; intros a; simpl; [reflexivity|].
  destruct (dispatch e a); [apply IH | reflexivity].
Qed.

(** An invariant of [dispatch] that holds at [start] holds after every
    run. *)
Lemma run_invariant (I : App -> Prop) :
  (forall e a a', I a -> dispatch e a = Some a' -> I a') ->
  forall events a a', I a -> run events a = Some a' -> I a'.
Proof.
  intros Hstep events.
  induction events as [|e events IH]; intros a a' Ha Hrun; simpl in Hrun.
  - injection Hrun as <-. exact Ha.
  - destruct (dispatch e a) as [a1|] eqn:E; [|discriminate].
    exact (IH a1 a' (Hstep e a a1 Ha E) Hrun).
Qed.

Lemma callback_keeps_scene (ch : Change) (l : Live) :
  let w := fst (snd (callback ch l)) in
  sceneChildren w = sceneChildren (fst l)
  /\ ambientLight w = ambientLight (fst l)
  /\ directionalLight w = directionalLight (fst l)
  /\ console w = console (fst l)
  /\ environment w = environment (fst l).
Proof.
  destruct l as [w c], ch; simpl; try (repeat split; reflexivity).
  destruct (environment w) as [[]|] eqn:E; simpl; repeat split; congruence.
Qed.

Lemma dispatch_changed (ch : Change) (a a' : App) :
  dispatch (Changed ch) a = Some a' ->
  exists c,
    closure a = Some c
    /\ world a' = fst (snd (change ch (world a, c)))
    /\ closure a' = Some (snd (snd (change ch (world a, c))))
    /\ environmentPending a' = environmentPending a
    /\ modelPending a' = modelPending a.
Proof.
  unfold dispatch. destruct (closure a) as [c|]; [|discriminate].
  intros H. exists c.
  destruct (change ch (world a, c)) as [k [w1 c1]].
  injection H as <-. simpl. auto 6.
Qed.

(** The scene only grows, and the two static lights are in it from the
    start; no callback writes to them. *)
Lemma static_lights_kept (events : list Event) (a : App) :
  run events start = Some a ->
  In AmbientLightRef (sceneChildren (world a))
  /\ In DirectionalLightRef (sceneChildren (world a))
  /\ ambientLight (world a) = ambientLight boot
  /\ directionalLight (world a) = directionalLight boot.
Proof.
  apply (run_invariant (fun a =>
    In AmbientLightRef (sceneChildren (world a))
    /\ In DirectionalLightRef (sceneChildren (world a))
    /\ ambientLight (world a) = ambientLight boot
    /\ directionalLight (world a) = directionalLight boot)).
  - intros e a0 a1 (Ha & Hd & Hal & Hdl) Hstep.
    destruct e as [h|err|g|err|ch].
    + simpl in Hstep. destruct (environmentPending a0); [|discriminate].
      injection Hstep as <-. simpl. auto.
    + simpl in Hstep. destruct (environmentPending a0); [|discriminate].
      injection Hstep as <-. simpl. auto.
    + simpl in Hstep. destruct (modelPending a0); [|discriminate].
      injection Hstep as <-. simpl.
      repeat split; auto; repeat (apply in_or_app; left); assumption.
    + simpl in Hstep. destruct (modelPending a0); [|discriminate].
      injection Hstep as <-. simpl. auto.
    + apply dispatch_changed in Hstep.
      destruct Hstep as (c & _ & Hw & _). rewrite Hw. unfold change.
      destruct (world a0) as [win r h b en s al dl co] eqn:Ew. simpl in *.
      pose proof (callback_keeps_scene ch
        (withWindow (mkWorld win r h b en s al dl co) (store ch win), c))
        as (Hs & Hal' & Hdl' & _).
      simpl in *. rewrite Hs, Hal', Hdl'. auto.
  - simpl. auto.
Qed.

(** A failed model load writes one line to the console, naming the
    asset, and changes nothing else. *)
Lemma model_failure_logged (error : string) (a a' : App) :
  dispatch (ModelFailed error) a = Some a' ->
  console (world a')
  = console (world a) ++ [ConsoleError "Error loading Rubber Duck:" error]
  /\ sceneChildren (world a') = sceneChildren (world a)
  /\ closure a' = closure a.
Proof.
  simpl. destruct (modelPending a); [|discriminate].
  intros H. injection H as <-. simpl. auto.
Qed.

(** After a failed environment load the model still loads, and the
    scene then holds the two static lights, the model and the point
    light. *)
Lemma model_loads_after_environment_failure (error : string) (gltf : Model) :
  exists a,
    run [EnvironmentFailed error; ModelLoaded gltf] start = Some a
    /\ sceneChildren (world a)
       = [AmbientLightRef; DirectionalLightRef; RubberDuckRef; Light1Ref]
    /\ closure a = Some (snd (onLoad gltf boot)).
Proof. eexists. simpl. repeat split. Qed.

(** C7.  The environment load is started without an error callback
    (line 31): when it fails, the script runs no code, so nothing is
    written to the console, while the failure of the model load is
    written with the name of the asset (line 157). *)
Theorem C7_environment_failure_not_logged (error : string) :
  exists a a',
    run [EnvironmentFailed error] start = Some a
    /\ console (world a) = []
    /\ world a = boot
    /\ run [ModelFailed error] start = Some a'
    /\ console (world a') = [ConsoleError "Error loading Rubber Duck:" error].
Proof. do 2 eexists. simpl. repeat split. Qed.

(** [scene.environment] is set by the environment callback and by
    nothing else. *)
Lemma environment_set_by_load (events : list Event) (a0 a : App) :
  run events a0 = Some a ->
  (environment (world a) <> None
   <-> environment (world a0) <> None
       \/ exists hdr, In (EnvironmentLoaded hdr) events).
Proof.
  revert a0. induction events as [|e events IH]; intros a0 Hrun;
    simpl in Hrun.
  - injection Hrun as <-. split; [auto|]. intros [H|[h []]]. exact H.
  - destruct (dispatch e a0) as [a1|] eqn:E; [|discriminate].
    rewrite (IH a1 Hrun). clear IH Hrun.
    destruct e as [h|err|g|err|ch].
    + simpl in E. destruct (environmentPending a0); [|discriminate].
      injection E as <-. simpl. split; intros _.
      * right. exists h. left. reflexivity.
      * left. discriminate.
    + simpl in E. destruct (environmentPending a0); [|discriminate].
      injection E as <-. simpl. split.
      * intros [H|[h H]]; [left; exact H | right; exists h; right; exact H].
      * intros [H|[h [H|H]]];
          [left; exact H | discriminate | right; exists h; exact H].
    + simpl in E. destruct (modelPending a0); [|discriminate].
      injection E as <-. simpl. split.
      * intros [H|[h H]]; [left; exact H | right; exists h; right; exact H].
      * intros [H|[h [H|H]]];
          [left; exact H | discriminate | right; exists h; exact H].
    + simpl in E. destruct (modelPending a0); [|discriminate].
      injection E as <-. simpl. split.
      * intros [H|[h H]]; [left; exact H | right; exists h; right; exact H].
      * intros [H|[h [H|H]]];
          [left; exact H | discriminate | right; exists h; exact H].
    + apply dispatch_changed in E. destruct E as (c & _ & Hw & _).
      assert (Hen : environment (world a1) = environment (world a0)).
      { rewrite Hw. unfold change.
        destruct (world a0) as [win r h b en s al dl co]. simpl.
        pose proof (callback_keeps_scene ch
          (withWindow (mkWorld win r h b en s al dl co) (store ch win), c))
          as (_ & _ & _ & _ & Hen).
        exact Hen. }
      rewrite Hen. split.
      * intros [H|[h H]]; [left; exact H | right; exists h; right; exact H].
      * intros [H|[h [H|H]]];
          [left; exact H | discriminate | right; exists h; exact H].
Qed.

(** With the environment loaded, the callback of the intensity control
    returns and the value is on the texture that the scene uses both as
    background and as environment. *)
Example environment_then_intensity :
  option_map (fun a => (hdr (world a), background (world a),
                        environment (world a)))
    (run [EnvironmentLoaded sampleTexture; ModelLoaded sampleModel;
          Changed (EnvMapIntensity (Fin 1))] start)
  = Some (Some (Texture.make Texture.EquirectangularReflectionMapping
                             (Some (Fin 1))),
          Some HdrRef, Some HdrRef).
Proof. reflexivity. Qed.

(** No control exists before the model has loaded, and each load ends
    once. *)
Example events_out_of_order :
  run [Changed (Rotation (Fin 1))] start = None
  /\ run [ModelFailed "404"; ModelLoaded sampleModel] start = None.
Proof. split; reflexivity. Qed.

(** C8.  In every state the program reaches, the callback of the
    environment-intensity control returns exactly when the environment
    load has completed successfully; otherwise [scene.environment] is
    [null] and the callback throws a [TypeError]. *)
Theorem C8_environment_intensity_unguarded
  (events : list Event) (a : App) (c : Closure) (v : num) :
  run events start = Some a ->
  closure a = Some c ->
  (fst (change (EnvMapIntensity v) (world a, c)) = Normal
   <-> exists hdr, In (EnvironmentLoaded hdr) events)
  /\ ((forall hdr, ~ In (EnvironmentLoaded hdr) events) ->
      fst (change (EnvMapIntensity v) (world a, c)) = Throw TypeError).
Proof.
  intros Hrun _.
  pose proof (environment_set_by_load events start a Hrun) as Henv.
  simpl in Henv.
  assert (Hcall :
    fst (change (EnvMapIntensity v) (world a, c))
    = match environment (world a) with
      | Some _ => Normal
      | None => Throw TypeError
      end).
  { unfold change. destruct (world a) as [win r h b en s al dl co].
    destruct win. simpl. destruct en as [[]|]; reflexivity. }
  rewrite Hcall. split; [split|].
  - intros H. destruct (environment (world a)) eqn:E; [|discriminate].
    destruct Henv as [Henv _].
    destruct Henv as [Habs|Hex]; [discriminate | | exact Hex].
    exfalso. apply Habs. reflexivity.
  - intros Hex. destruct Henv as [_ Henv].
    destruct (environment (world a)); [reflexivity|].
    exfalso. apply Henv; [right; exact Hex | reflexivity].
  - intros Hno. destruct (environment (world a)) eqn:E; [|reflexivity].
    destruct Henv as [Henv _].
    destruct Henv as [Habs|[h Hh]]; [discriminate | |].
    + exfalso. apply Habs. reflexivity.
    + exfalso. exact (Hno h Hh).
Qed.

(** The theorem at work: the environment failed, the sample model
    loaded, and the callback throws. *)
Lemma C8_failed_environment_witness :
  (fst (change (EnvMapIntensity (Fin 1))
          (world afterFailedEnvironment, snd (onLoad sampleModel boot)))
   = Normal
   <-> exists hdr,
         In (EnvironmentLoaded hdr)
            [EnvironmentFailed "404"; ModelLoaded sampleModel])
  /\ ((forall hdr,
         ~ In (EnvironmentLoaded hdr)
              [EnvironmentFailed "404"; ModelLoaded sampleModel]) ->
      fst (change (EnvMapIntensity (Fin 1))
             (world afterFailedEnvironment, snd (onLoad sampleModel boot)))
      = Throw TypeError).
Proof.
  apply (C8_environment_intensity_unguarded
           [EnvironmentFailed "404"; ModelLoaded sampleModel]
           afterFailedEnvironment (snd (onLoad sampleModel boot)) (Fin 1));
    reflexivity.
Defined.

(** ** The state at the end of the model load *)


Lemma onLoad_window (gltf : Model) (w : World) :
  window (fst (onLoad gltf w)) = window w.
Proof. reflexivity. Qed.

Lemma onLoad_materials (gltf : Model) (w : World) :
  Object3D.materials (root (rubberDuck (snd (onLoad gltf w))))
  = map (fun m =>
           Material.make (Window.defaultMetalness (window w))
                         (Window.defaultRoughness (window w))
                         (Material.toneMapping m)
                         (Material.toneMappingExposure m) true
                         (S (Material.version m)))
        (Object3D.materials (root gltf)).
Proof.
  unfold onLoad. simpl. rewrite materials_loadPass. f_equal.
  unfold normalize. simpl.
  rewrite !materials_atRoot_transform; reflexivity.
Qed.

Lemma onLoad_kinds (gltf : Model) (w : World) :
  map Object3D.isMesh
      (Object3D.nodes (root (rubberDuck (snd (onLoad gltf w)))))
  = map Object3D.isMesh (Object3D.nodes (root gltf)).
Proof.
  unfold onLoad. cbn [snd rubberDuck traverseModel root].
  rewrite nodes_traverse, map_map.
  transitivity (map Object3D.isMesh (Object3D.nodes (root (normalize gltf)))).
  - apply map_ext. intros p. unfold loadPass, Object3D.isMesh.
    destruct (Object3D.kind p) eqn:E; cbn; rewrite ?E; reflexivity.
  - destruct gltf as [[p ch] g]. reflexivity.
Qed.



(** ** Finite arithmetic *)

Lemma denotes_inv (a : num) (p : Q) :
  denotes a p -> exists p', a = Fin p' /\ p' == p.
Proof.
  destruct a as [q| | |]; simpl; intros H; try contradiction.
  exists q. split; [reflexivity | exact H].
Qed.

Lemma denotes_Fin (p q : Q) : p == q -> denotes (Fin p) q.
Proof. intros H. exact H. Qed.

Lemma denotes_eq (a : num) (p q : Q) : denotes a p -> p == q -> denotes a q.
Proof.
  intros H E. destruct (denotes_inv a p H) as [p' [-> Hp]].
  unfold denotes. simpl. rewrite Hp. exact E.
Qed.

Ltac finite H :=
  let p := fresh "p" in
  let E := fresh "E" in
  apply denotes_inv in H; destruct H as [p [-> E]].

Lemma add_denotes (a b : num) (p q : Q) :
  denotes a p -> denotes b q -> denotes (add a b) (p + q).
Proof.
  intros Ha Hb. finite Ha. finite Hb. unfold denotes. simpl.
  rewrite E, E0. reflexivity.
Qed.

Lemma neg_denotes (a : num) (p : Q) : denotes a p -> denotes (neg a) (- p).
Proof.
  intros Ha. finite Ha. unfold denotes. simpl. rewrite E. reflexivity.
Qed.

Lemma sub_denotes (a b : num) (p q : Q) :
  denotes a p -> denotes b q -> denotes (sub a b) (p - q).
Proof.
  intros Ha Hb. unfold sub. apply add_denotes; [|apply neg_denotes]; assumption.
Qed.

Lemma mul_denotes (a b : num) (p q : Q) :
  denotes a p -> denotes b q -> denotes (mul a b) (p * q).
Proof.
  intros Ha Hb. finite Ha. finite Hb. unfold denotes. simpl.
  rewrite E, E0. reflexivity.
Qed.

Lemma div_denotes (a b : num) (p q : Q) :
  denotes a p -> denotes b q -> ~ q == 0 -> denotes (div a b) (p / q).
Proof.
  intros Ha Hb Hq. finite Ha. finite Hb. unfold denotes, div, sgn.
  destruct (Qcompare_spec 0 p1) as [H|H|H].
  - exfalso. apply Hq. rewrite <- E0, <- H. reflexivity.
  - simpl. rewrite E, E0. reflexivity.
  - simpl. rewrite E, E0. reflexivity.
Qed.

Lemma ltb_denotes_lt (a b : num) (p q : Q) :
  denotes a p -> denotes b q -> p < q -> ltb a b = true.
Proof.
  intros Ha Hb H. finite Ha. finite Hb. unfold ltb.
  destruct (Qcompare_spec p0 p1); [lra | reflexivity | lra].
Qed.

Lemma ltb_denotes_ge (a b : num) (p q : Q) :
  denotes a p -> denotes b q -> q <= p -> ltb a b = false.
Proof.
  intros Ha Hb H. finite Ha. finite Hb. unfold ltb.
  destruct (Qcompare_spec p0 p1); [reflexivity | lra | reflexivity].
Qed.

Lemma max_denotes (a b : num) (p q : Q) :
  denotes a p -> denotes b q -> denotes (max a b) (Qmax p q).
Proof.
  intros Ha Hb. finite Ha. finite Hb. unfold denotes, max, ltb.
  destruct (Qcompare_spec p0 p1) as [H|H|H]; simpl;
    destruct (Q.max_spec p q) as [[H' ->]|[H' ->]]; lra.
Qed.

Lemma min_denotes (a b : num) (p q : Q) :
  denotes a p -> denotes b q -> denotes (min a b) (Qmin p q).
Proof.
  intros Ha Hb. finite Ha. finite Hb. unfold denotes, min, ltb.
  destruct (Qcompare_spec p1 p0) as [H|H|H]; simpl;
    destruct (Q.min_spec p q) as [[H' ->]|[H' ->]]; lra.
Qed.

Lemma min_PInf_denotes (a : num) (p : Q) :
  denotes a p -> denotes (min PInf a) p.
Proof. intros Ha. finite Ha. exact E. Qed.

Lemma max_NInf_denotes (a : num) (p : Q) :
  denotes a p -> denotes (max NInf a) p.
Proof. intros Ha. finite Ha. exact E. Qed.

Lemma max3_denotes (a b c : num) (p q r : Q) :
  denotes a p -> denotes b q -> denotes c r ->
  denotes (max3 a b c) (Qmax (Qmax p q) r).
Proof. intros. unfold max3. repeat apply max_denotes; assumption. Qed.

Lemma Qmax_scale (s a b : Q) : 0 < s -> Qmax (a * s) (b * s) == Qmax a b * s.
Proof.
  intros Hs.
  destruct (Q.max_spec a b) as [[H ->]|[H ->]];
    destruct (Q.max_spec (a * s) (b * s)) as [[H' ->]|[H' ->]]; nra.
Qed.

(** ** Finite vectors and boxes *)

Lemma spans_not_empty (b : Box3) (x0 y0 z0 x1 y1 z1 : Q) :
  spans b x0 y0 z0 x1 y1 z1 -> isEmpty b = false.
Proof.
  intros [(Hx0 & Hy0 & Hz0) (Hx1 & Hy1 & Hz1) Hx Hy Hz]. unfold isEmpty.
  rewrite (ltb_denotes_ge _ _ _ _ Hx1 Hx0 Hx).
  rewrite (ltb_denotes_ge _ _ _ _ Hy1 Hy0 Hy).
  rewrite (ltb_denotes_ge _ _ _ _ Hz1 Hz0 Hz).
  reflexivity.
Qed.

Lemma getSize_spans (b : Box3) (x0 y0 z0 x1 y1 z1 : Q) :
  spans b x0 y0 z0 x1 y1 z1 ->
  vdenotes (getSize b) (x1 - x0) (y1 - y0) (z1 - z0).
Proof.
  intros H. unfold getSize. rewrite (spans_not_empty _ _ _ _ _ _ _ H).
  destruct H as [(Hx0 & Hy0 & Hz0) (Hx1 & Hy1 & Hz1) _ _ _].
  repeat split; simpl; apply sub_denotes; assumption.
Qed.

Lemma getCenter_spans (b : Box3) (x0 y0 z0 x1 y1 z1 : Q) :
  spans b x0 y0 z0 x1 y1 z1 ->
  vdenotes (getCenter b)
    ((x0 + x1) * (1 # 2)) ((y0 + y1) * (1 # 2)) ((z0 + z1) * (1 # 2)).
Proof.
  intros H. unfold getCenter. rewrite (spans_not_empty _ _ _ _ _ _ _ H).
  destruct H as [(Hx0 & Hy0 & Hz0) (Hx1 & Hy1 & Hz1) _ _ _].
  repeat split; simpl; apply mul_denotes; try apply add_denotes;
    try assumption; apply denotes_Fin; reflexivity.
Qed.

(** One axis of [transformBox]: under a positive scale the low end of
    the interval stays the low end. *)
Lemma axis_transform (lo hi pos scl : num) (a b p s : Q) :
  denotes lo a -> denotes hi b -> denotes pos p -> denotes scl s ->
  a <= b -> 0 < s ->
  denotes (min (min PInf (add (mul lo scl) pos)) (add (mul hi scl) pos))
          (a * s + p)
  /\ denotes (max (max NInf (add (mul lo scl) pos)) (add (mul hi scl) pos))
             (b * s + p).
Proof.
  intros Hlo Hhi Hpos Hscl Hab Hs.
  assert (Hl : denotes (add (mul lo scl) pos) (a * s + p))
    by (apply add_denotes; [apply mul_denotes|]; assumption).
  assert (Hh : denotes (add (mul hi scl) pos) (b * s + p))
    by (apply add_denotes; [apply mul_denotes|]; assumption).
  split.
  - apply denotes_eq with (Qmin (a * s + p) (b * s + p)).
    + apply min_denotes; [apply min_PInf_denotes|]; assumption.
    + apply Q.min_l. nra.
  - apply denotes_eq with (Qmax (a * s + p) (b * s + p)).
    + apply max_denotes; [apply max_NInf_denotes|]; assumption.
    + apply Q.max_r. nra.
Qed.

Lemma transformBox_spans (position scale : Vector3) (b : Box3)
  (px py pz sx sy sz x0 y0 z0 x1 y1 z1 : Q) :
  vdenotes position px py pz ->
  vdenotes scale sx sy sz ->
  0 < sx -> 0 < sy -> 0 < sz ->
  spans b x0 y0 z0 x1 y1 z1 ->
  spans (transformBox position scale b)
        (x0 * sx + px) (y0 * sy + py) (z0 * sz + pz)
        (x1 * sx + px) (y1 * sy + py) (z1 * sz + pz).
Proof.
  intros (Hpx & Hpy & Hpz) (Hsx & Hsy & Hsz) Px Py Pz H.
  unfold transformBox. rewrite (spans_not_empty _ _ _ _ _ _ _ H).
  destruct H as [(Hx0 & Hy0 & Hz0) (Hx1 & Hy1 & Hz1) Hx Hy Hz].
  destruct (axis_transform _ _ _ _ _ _ _ _ Hx0 Hx1 Hpx Hsx Hx Px) as [Ax Bx].
  destruct (axis_transform _ _ _ _ _ _ _ _ Hy0 Hy1 Hpy Hsy Hy Py) as [Ay By].
  destruct (axis_transform _ _ _ _ _ _ _ _ Hz0 Hz1 Hpz Hsz Hz Pz) as [Az Bz].
  split; try nra; repeat split; assumption.
Qed.

Lemma maxDimensionOf_spans (b : Box3) (x0 y0 z0 x1 y1 z1 : Q) :
  spans b x0 y0 z0 x1 y1 z1 ->
  denotes (maxDimensionOf b) (largestExtent x0 y0 z0 x1 y1 z1).
Proof.
  intros H. destruct (getSize_spans _ _ _ _ _ _ _ H) as (Hx & Hy & Hz).
  unfold maxDimensionOf. apply max3_denotes; assumption.
Qed.

Lemma spans_eq (b : Box3) (x0 y0 z0 x1 y1 z1 x0' y0' z0' x1' y1' z1' : Q) :
  spans b x0 y0 z0 x1 y1 z1 ->
  x0 == x0' -> y0 == y0' -> z0 == z0' ->
  x1 == x1' -> y1 == y1' -> z1 == z1' ->
  spans b x0' y0' z0' x1' y1' z1'.
Proof.
  intros [(Hx0 & Hy0 & Hz0) (Hx1 & Hy1 & Hz1) Hx Hy Hz] Ex0 Ey0 Ez0 Ex1 Ey1 Ez1.
  split; try lra; repeat split; eapply denotes_eq; eassumption.
Qed.

(** ** The fit of the model *)

Lemma normalize_transform (m : Model) :
  let box := setFromObject m in
  let p := Object3D.props (root m) in
  let p' := Object3D.props (root (normalize m)) in
  Object3D.scale p'
  = vec3 (scaleFactorOf box) (scaleFactorOf box) (scaleFactorOf box)
  /\ Object3D.position p'
     = setY (vsub (Object3D.position p) (getCenter box))
            (mul (neg (y (bmin box))) (scaleFactorOf box))
  /\ Object3D.rotation p' = Object3D.rotation p
  /\ geometry (normalize m) = geometry m.
Proof. destruct m as [[p ch] g]. repeat split. Qed.

Lemma onLoad_transform (gltf : Model) (w : World) :
  let duck := rubberDuck (snd (onLoad gltf w)) in
  Object3D.scale (Object3D.props (root duck))
  = Object3D.scale (Object3D.props (root (normalize gltf)))
  /\ Object3D.position (Object3D.props (root duck))
     = Object3D.position (Object3D.props (root (normalize gltf)))
  /\ Object3D.rotation (Object3D.props (root duck))
     = Object3D.rotation (Object3D.props (root (normalize gltf)))
  /\ geometry duck = geometry (normalize gltf).
Proof.
  unfold onLoad. cbn [snd rubberDuck].
  destruct (normalize gltf) as [[p ch] g]. cbn.
  unfold loadPass. destruct (Object3D.kind p); repeat split.
Qed.

Lemma onLoad_bounds (gltf : Model) (w : World) :
  setFromObject (rubberDuck (snd (onLoad gltf w)))
  = setFromObject (normalize gltf).
Proof.
  destruct (onLoad_transform gltf w) as (Hs & Hp & _ & Hg).
  unfold setFromObject. rewrite Hs, Hp, Hg. reflexivity.
Qed.

Lemma setFromObject_identity (m : Model) (x0 y0 z0 x1 y1 z1 : Q) :
  identityTransform (Object3D.props (root m)) ->
  spans (geometry m) x0 y0 z0 x1 y1 z1 ->
  spans (setFromObject m) x0 y0 z0 x1 y1 z1.
Proof.
  intros (Hp & Hs & _) H. unfold setFromObject. rewrite Hp, Hs.
  apply spans_eq with (x0 * 1 + 0) (y0 * 1 + 0) (z0 * 1 + 0)
                      (x1 * 1 + 0) (y1 * 1 + 0) (z1 * 1 + 0); try ring.
  apply transformBox_spans; try assumption; try reflexivity;
    repeat split; apply denotes_Fin; reflexivity.
Qed.

Section Fit.

Variable gltf : Model.
Variables x0 y0 z0 x1 y1 z1 : Q.

Hypothesis fresh : identityTransform (Object3D.props (root gltf)).
Hypothesis bounds : spans (geometry gltf) x0 y0 z0 x1 y1 z1.
Hypothesis positive : 0 < largestExtent x0 y0 z0 x1 y1 z1.

Lemma scaleFactor_fit :
  denotes (scaleFactorOf (setFromObject gltf))
          (5 / largestExtent x0 y0 z0 x1 y1 z1).
Proof.
  unfold scaleFactorOf. apply div_denotes.
  - apply denotes_Fin. reflexivity.
  - apply maxDimensionOf_spans. apply setFromObject_identity; assumption.
  - lra.
Qed.

Lemma scale_positive : 0 < 5 / largestExtent x0 y0 z0 x1 y1 z1.
Proof.
  unfold Qdiv. apply Qmult_lt_0_compat; [lra|]. apply Qinv_lt_0_compat.
  exact positive.
Qed.

(** The box of the fitted model, with [s] the scale factor: each
    horizontal axis is scaled about the origin and moved by minus the
    unscaled centre; the up axis starts at zero. *)
Lemma normalize_spans :
  let s := 5 / largestExtent x0 y0 z0 x1 y1 z1 in
  spans (setFromObject (normalize gltf))
        (x0 * s - (x0 + x1) * (1 # 2)) 0 (z0 * s - (z0 + z1) * (1 # 2))
        (x1 * s - (x0 + x1) * (1 # 2)) ((y1 - y0) * s)
        (z1 * s - (z0 + z1) * (1 # 2)).
Proof.
  intros s.
  pose proof scaleFactor_fit as Hs.
  pose proof scale_positive as Hpos.
  fold s in Hs, Hpos.
  pose proof (setFromObject_identity gltf _ _ _ _ _ _ fresh bounds) as Hbox.
  destruct (normalize_transform gltf) as (Escl & Epos & _ & Egeo).
  destruct fresh as (Hp0 & _ & _).
  unfold setFromObject at 1. rewrite Escl, Epos, Egeo, Hp0.
  destruct (getCenter_spans _ _ _ _ _ _ _ Hbox) as (Cx & Cy & Cz).
  destruct Hbox as [(Bx & By & Bz) _ _ _ _].
  eapply spans_eq.
  - apply transformBox_spans with
      (px := 0 - (x0 + x1) * (1 # 2)) (py := - y0 * s)
      (pz := 0 - (z0 + z1) * (1 # 2)) (sx := s) (sy := s) (sz := s);
      try exact Hpos; try exact bounds.
    + repeat split; cbn [x y z setY vsub zero3].
      * apply sub_denotes; [apply denotes_Fin; reflexivity | exact Cx].
      * apply mul_denotes; [apply neg_denotes; exact By | exact Hs].
      * apply sub_denotes; [apply denotes_Fin; reflexivity | exact Cz].
    + repeat split; exact Hs.
  - ring.
  - ring.
  - ring.
  - ring.
  - ring.
  - ring.
Qed.

Lemma scaled_maxDimension :
  denotes (maxDimensionOf (setFromObject (normalize gltf))) 5.
Proof.
  eapply denotes_eq.
  - apply maxDimensionOf_spans. exact normalize_spans.
  - pose proof scale_positive as Hpos.
    set (m := largestExtent x0 y0 z0 x1 y1 z1) in *.
    set (s := 5 / m) in *.
    unfold largestExtent.
    assert (Ex : x1 * s - (x0 + x1) * (1 # 2) - (x0 * s - (x0 + x1) * (1 # 2))
                 == (x1 - x0) * s) by ring.
    assert (Ey : (y1 - y0) * s - 0 == (y1 - y0) * s) by ring.
    assert (Ez : z1 * s - (z0 + z1) * (1 # 2) - (z0 * s - (z0 + z1) * (1 # 2))
                 == (z1 - z0) * s) by ring.
    rewrite Ex, Ey, Ez.
    rewrite !Qmax_scale by exact Hpos.
    fold (largestExtent x0 y0 z0 x1 y1 z1). fold m.
    subst s. field. lra.
Qed.

End Fit.

(** The lowest point of the fitted model lies on the plane [y = 0]. *)
Lemma lowest_point_on_plane (gltf : Model) (w : World)
  (x0 y0 z0 x1 y1 z1 : Q) :
  identityTransform (Object3D.props (root gltf)) ->
  spans (geometry gltf) x0 y0 z0 x1 y1 z1 ->
  0 < largestExtent x0 y0 z0 x1 y1 z1 ->
  y (bmin (setFromObject (rubberDuck (snd (onLoad gltf w))))) =n= Fin 0.
Proof.
  intros Hid Hg Hpos. rewrite onLoad_bounds.
  destruct (normalize_spans gltf _ _ _ _ _ _ Hid Hg Hpos)
    as [(_ & Hy & _) _ _ _ _].
  exact Hy.
Qed.

(** The centre of the fitted model, along the first axis, is the
    centre of the loaded model times [scaleFactor - 1]: the translation
    uses the centre as measured before the scale was set. *)
Lemma horizontal_centre_offset (gltf : Model) (w : World)
  (x0 y0 z0 x1 y1 z1 : Q) :
  identityTransform (Object3D.props (root gltf)) ->
  spans (geometry gltf) x0 y0 z0 x1 y1 z1 ->
  0 < largestExtent x0 y0 z0 x1 y1 z1 ->
  x (getCenter (setFromObject (rubberDuck (snd (onLoad gltf w)))))
  =n= Fin ((x0 + x1) * (1 # 2)
           * (5 / largestExtent x0 y0 z0 x1 y1 z1 - 1)).
Proof.
  intros Hid Hg Hpos. rewrite onLoad_bounds.
  pose proof (normalize_spans gltf _ _ _ _ _ _ Hid Hg Hpos) as H.
  destruct (getCenter_spans _ _ _ _ _ _ _ H) as (Hx & _ & _).
  eapply denotes_eq; [exact Hx|]. ring.
Qed.

Lemma finite_box_spans (x0 y0 z0 x1 y1 z1 : Q) :
  x0 <= x1 -> y0 <= y1 -> z0 <= z1 ->
  spans (box3 (vec3 (Fin x0) (Fin y0) (Fin z0))
              (vec3 (Fin x1) (Fin y1) (Fin z1)))
        x0 y0 z0 x1 y1 z1.
Proof.
  intros Hx Hy Hz.
  split; try assumption; repeat split; apply denotes_Fin; reflexivity.
Qed.

Lemma extent_scaled_bounds (e m : Q) :
  0 <= e -> e <= m -> 0 < m -> 0 <= e * (5 / m) /\ e * (5 / m) <= 5.
Proof.
  intros He Hm Hpos.
  assert (Hs : 0 < 5 / m).
  { unfold Qdiv. apply Qmult_lt_0_compat; [lra|].
    apply Qinv_lt_0_compat. exact Hpos. }
  assert (E : m * (5 / m) == 5) by (field; lra).
  split; nra.
Qed.

(** ** The fit stays within the range of doubles *)

Lemma fitRange_facts :
  1 <= fitRange
  /\ minNormal <= 5 / (2 * fitRange)
  /\ (1 / fitRange) * fitRange == 1
  /\ 0 < 1 / fitRange.
Proof.
  repeat split; try (unfold Qle; vm_compute; discriminate);
    vm_compute; reflexivity.
Qed.

Lemma within_denotes (r : Q) (a : num) (q : Q) :
  denotes a q -> - r <= q -> q <= r -> within r a.
Proof. intros H Hlo Hhi. exists q. split; [exact H | split; assumption]. Qed.

Lemma within_weaken (r r' : Q) (a : num) :
  within r a -> r <= r' -> within r' a.
Proof.
  intros (q & Hq & Hlo & Hhi) Hr. exists q.
  split; [exact Hq | split; lra].
Qed.

Lemma within_zero : within 0 (Fin 0).
Proof. exists 0. split; [reflexivity | split; lra]. Qed.

Lemma within_add (r1 r2 : Q) (a b : num) :
  within r1 a -> within r2 b -> within (r1 + r2) (add a b).
Proof.
  intros (p & Hp & Lp & Up) (q & Hq & Lq & Uq). exists (p + q).
  split; [apply add_denotes; assumption | split; lra].
Qed.

Lemma within_neg (r : Q) (a : num) : within r a -> within r (neg a).
Proof.
  intros (p & Hp & Lp & Up). exists (- p).
  split; [apply neg_denotes; assumption | split; lra].
Qed.

Lemma within_sub (r1 r2 : Q) (a b : num) :
  within r1 a -> within r2 b -> within (r1 + r2) (sub a b).
Proof.
  intros Ha Hb. unfold sub. apply within_add; [|apply within_neg]; assumption.
Qed.

Lemma within_mul (r1 r2 : Q) (a b : num) :
  within r1 a -> within r2 b -> within (r1 * r2) (mul a b).
Proof.
  intros (p & Hp & Lp & Up) (q & Hq & Lq & Uq). exists (p * q).
  split; [apply mul_denotes; assumption | split; nra].
Qed.

Lemma product_bound (c s b t : Q) :
  - b <= c -> c <= b -> 0 <= s -> s <= t ->
  - (b * t) <= c * s /\ c * s <= b * t.
Proof. intros. split; nra. Qed.

Section FitRange.

Variable gltf : Model.
Variables x0 y0 z0 x1 y1 z1 : Q.

Hypothesis fresh : identityTransform (Object3D.props (root gltf)).
Hypothesis bounds : spans (geometry gltf) x0 y0 z0 x1 y1 z1.
Hypothesis sized : moderate x0 y0 z0 x1 y1 z1.

Lemma moderate_positive : 0 < largestExtent x0 y0 z0 x1 y1 z1.
Proof.
  destruct sized as (_ & _ & _ & _ & _ & _ & Hm).
  destruct fitRange_facts as (_ & _ & _ & Hpos). lra.
Qed.

(** The scale factor of a model of moderate size is a normal double. *)
Lemma moderate_scaleFactor :
  let s := 5 / largestExtent x0 y0 z0 x1 y1 z1 in
  5 / (2 * fitRange) <= s /\ s <= 5 * fitRange /\ minNormal <= s.
Proof.
  intros s.
  destruct sized as ((Ax0 & Bx0) & (Ay0 & By0) & (Az0 & Bz0)
                     & (Ax1 & Bx1) & (Ay1 & By1) & (Az1 & Bz1) & Hm).
  destruct fitRange_facts as (H1 & H4 & H5 & H6).
  pose proof moderate_positive as Hpos.
  assert (Hup : largestExtent x0 y0 z0 x1 y1 z1 <= 2 * fitRange).
  { unfold largestExtent. repeat apply Q.max_lub; lra. }
  set (m := largestExtent x0 y0 z0 x1 y1 z1) in *.
  assert (Es : s * m == 5) by (unfold s; field; lra).
  assert (Hs : 0 < s).
  { unfold s, Qdiv. apply Qmult_lt_0_compat; [lra|].
    apply Qinv_lt_0_compat. exact Hpos. }
  assert (E2 : 5 / (2 * fitRange) * (2 * fitRange) == 5) by (field; lra).
  assert (Hlow : 5 / (2 * fitRange) <= s).
  { destruct (Qlt_le_dec s (5 / (2 * fitRange))) as [Hlt|]; [|assumption].
    exfalso. set (t := 5 / (2 * fitRange)) in *. clearbody t s m. nra. }
  assert (Hhigh : s <= 5 * fitRange).
  { destruct (Qlt_le_dec (5 * fitRange) s) as [Hlt|]; [|assumption].
    exfalso. set (i := 1 / fitRange) in *. clearbody i s m. nra. }
  repeat split; try assumption. lra.
Qed.

Lemma fit_in_range : Forall inDoubleRange (fitValues gltf).
Proof.
  pose proof moderate_positive as Hpos.
  pose proof (setFromObject_identity gltf _ _ _ _ _ _ fresh bounds) as Hbox.
  destruct (getSize_spans _ _ _ _ _ _ _ Hbox) as (Sx & Sy & Sz).
  pose proof (maxDimensionOf_spans _ _ _ _ _ _ _ Hbox) as Hm.
  pose proof (scaleFactor_fit gltf _ _ _ _ _ _ fresh bounds Hpos) as Hs.
  destruct (getCenter_spans _ _ _ _ _ _ _ Hbox) as (Cx & Cy & Cz).
  pose proof (normalize_spans gltf _ _ _ _ _ _ fresh bounds Hpos) as Hfit.
  cbv zeta in Hfit.
  destruct (getSize_spans _ _ _ _ _ _ _ Hfit) as (Fx & Fy & Fz).
  pose proof (scaled_maxDimension gltf _ _ _ _ _ _ fresh bounds Hpos) as Hmax.
  destruct Hfit as [(Fx0 & Fy0 & Fz0) (Fx1 & Fy1 & Fz1) _ _ _].
  destruct Hbox as [(Bx0 & By0 & Bz0) (Bx1 & By1 & Bz1) _ _ _].
  destruct bounds as [(Gx0 & Gy0 & Gz0) (Gx1 & Gy1 & Gz1) Hx Hy Hz].
  destruct (normalize_transform gltf) as (Escl & Epos & _ & _).
  destruct fresh as (Hp0 & _ & _).
  destruct moderate_scaleFactor as (Hslo & Hshi & _).
  destruct sized as ((Ax0 & Ux0) & (Ay0 & Uy0) & (Az0 & Uz0)
                     & (Ax1 & Ux1) & (Ay1 & Uy1) & (Az1 & Uz1) & Hmlo).
  destruct fitRange_facts as (H1 & _ & _ & Hinv).
  assert (Hmup : largestExtent x0 y0 z0 x1 y1 z1 <= 2 * fitRange).
  { unfold largestExtent. repeat apply Q.max_lub; lra. }
  assert (Mx : x1 - x0 <= largestExtent x0 y0 z0 x1 y1 z1)
    by (unfold largestExtent;
        eapply Qle_trans; [apply Q.le_max_l | apply Q.le_max_l]).
  assert (My : y1 - y0 <= largestExtent x0 y0 z0 x1 y1 z1)
    by (unfold largestExtent;
        eapply Qle_trans; [apply Q.le_max_r | apply Q.le_max_l]).
  assert (Mz : z1 - z0 <= largestExtent x0 y0 z0 x1 y1 z1)
    by (unfold largestExtent; apply Q.le_max_r).
  destruct (extent_scaled_bounds (x1 - x0) _ ltac:(lra) Mx Hpos) as [Ex0 Ex1].
  destruct (extent_scaled_bounds (y1 - y0) _ ltac:(lra) My Hpos) as [Ey0 Ey1].
  destruct (extent_scaled_bounds (z1 - z0) _ ltac:(lra) Mz Hpos) as [Ez0 Ez1].
  set (m := largestExtent x0 y0 z0 x1 y1 z1) in *.
  set (s := 5 / m) in *.
  assert (Hs0 : 0 <= s).
  { assert (0 < 5 / (2 * fitRange)); [|lra].
    unfold Qdiv. apply Qmult_lt_0_compat; [lra|].
    apply Qinv_lt_0_compat. lra. }
  (* the numbers read from the boxes, and the scale factor *)
  assert (WBx0 := within_denotes fitRange _ _ Bx0 Ax0 Ux0).
  assert (WBy0 := within_denotes fitRange _ _ By0 Ay0 Uy0).
  assert (WBz0 := within_denotes fitRange _ _ Bz0 Az0 Uz0).
  assert (WBx1 := within_denotes fitRange _ _ Bx1 Ax1 Ux1).
  assert (WBy1 := within_denotes fitRange _ _ By1 Ay1 Uy1).
  assert (WBz1 := within_denotes fitRange _ _ Bz1 Az1 Uz1).
  assert (WGx0 := within_denotes fitRange _ _ Gx0 Ax0 Ux0).
  assert (WGy0 := within_denotes fitRange _ _ Gy0 Ay0 Uy0).
  assert (WGz0 := within_denotes fitRange _ _ Gz0 Az0 Uz0).
  assert (WGx1 := within_denotes fitRange _ _ Gx1 Ax1 Ux1).
  assert (WGy1 := within_denotes fitRange _ _ Gy1 Ay1 Uy1).
  assert (WGz1 := within_denotes fitRange _ _ Gz1 Az1 Uz1).
  assert (WSx : within (2 * fitRange) (x (getSize (setFromObject gltf))))
    by (eapply within_denotes; [exact Sx| |]; lra).
  assert (WSy : within (2 * fitRange) (y (getSize (setFromObject gltf))))
    by (eapply within_denotes; [exact Sy| |]; lra).
  assert (WSz : within (2 * fitRange) (z (getSize (setFromObject gltf))))
    by (eapply within_denotes; [exact Sz| |]; lra).
  assert (Wm : within (2 * fitRange) (maxDimensionOf (setFromObject gltf)))
    by (eapply within_denotes; [exact Hm| |]; lra).
  assert (Ws : within (5 * fitRange) (scaleFactorOf (setFromObject gltf)))
    by (eapply within_denotes; [exact Hs| |]; lra).
  assert (WCx : within fitRange (x (getCenter (setFromObject gltf))))
    by (eapply within_denotes; [exact Cx| |]; lra).
  assert (WCy : within fitRange (y (getCenter (setFromObject gltf))))
    by (eapply within_denotes; [exact Cy| |]; lra).
  assert (WCz : within fitRange (z (getCenter (setFromObject gltf))))
    by (eapply within_denotes; [exact Cz| |]; lra).
  (* the bounding box of the fitted model *)
  destruct (product_bound x0 s fitRange (5 * fitRange)) as [Px0 Qx0];
    try assumption.
  destruct (product_bound z0 s fitRange (5 * fitRange)) as [Pz0 Qz0];
    try assumption.
  destruct (product_bound x1 s fitRange (5 * fitRange)) as [Px1 Qx1];
    try assumption.
  destruct (product_bound z1 s fitRange (5 * fitRange)) as [Pz1 Qz1];
    try assumption.
  set (R := fitRange * (5 * fitRange) + fitRange).
  assert (WFx0 : within R (x (bmin (setFromObject (normalize gltf)))))
    by (eapply within_denotes; [exact Fx0| |]; unfold R; lra).
  assert (WFy0 : within R (y (bmin (setFromObject (normalize gltf)))))
    by (eapply within_denotes; [exact Fy0| |]; unfold R; nra).
  assert (WFz0 : within R (z (bmin (setFromObject (normalize gltf)))))
    by (eapply within_denotes; [exact Fz0| |]; unfold R; lra).
  assert (WFx1 : within R (x (bmax (setFromObject (normalize gltf)))))
    by (eapply within_denotes; [exact Fx1| |]; unfold R; lra).
  assert (WFy1 : within 5 (y (bmax (setFromObject (normalize gltf)))))
    by (eapply within_denotes; [exact Fy1| |]; lra).
  assert (WFz1 : within R (z (bmax (setFromObject (normalize gltf)))))
    by (eapply within_denotes; [exact Fz1| |]; unfold R; lra).
  assert (WEx : within 5 (x (getSize (setFromObject (normalize gltf))))).
  { eapply within_denotes; [exact Fx| |];
      ring_simplify; ring_simplify in Ex0; ring_simplify in Ex1; lra. }
  assert (WEy : within 5 (y (getSize (setFromObject (normalize gltf))))).
  { eapply within_denotes; [exact Fy| |];
      ring_simplify; ring_simplify in Ey0; ring_simplify in Ey1; lra. }
  assert (WEz : within 5 (z (getSize (setFromObject (normalize gltf))))).
  { eapply within_denotes; [exact Fz| |];
      ring_simplify; ring_simplify in Ez0; ring_simplify in Ez1; lra. }
  assert (WM : within 5 (maxDimensionOf (setFromObject (normalize gltf))))
    by (eapply within_denotes; [exact Hmax| |]; lra).
  clear - Escl Epos Hp0 WBx0 WBy0 WBz0 WBx1 WBy1 WBz1
          WGx0 WGy0 WGz0 WGx1 WGy1 WGz1 WSx WSy WSz Wm Ws
          WCx WCy WCz WFx0 WFy0 WFz0 WFx1 WFy1 WFz1 WEx WEy WEz WM.
  subst R.
  unfold fitValues, components. cbv zeta.
  rewrite Escl, Epos, Hp0.
  cbn [x y z setY vsub multiply applyTransform addVectors zero3 app].
  repeat (apply Forall_cons || apply Forall_nil);
    (eapply within_weaken;
     [ repeat first [ eassumption
                    | apply within_add | apply within_sub
                    | apply within_mul | apply within_neg
                    | apply within_zero ]
     | unfold Qle; vm_compute; discriminate ]).
Qed.

End FitRange.



(** C2, as the code has it.  When the largest extent of the bounding
    box is zero, the division [5 / maxDimension] is made all the same:
    the scale factor is [Infinity], and it is written to the three
    axes of the root's scale. *)
Theorem C2_degenerate_scale_is_infinite (gltf : Model) (w : World) :
  maxDimensionOf (setFromObject gltf) =n= Fin 0 ->
  let duck := rubberDuck (snd (onLoad gltf w)) in
  let scaleFactor := scaleFactorOf (setFromObject gltf) in
  scaleFactor = PInf
  /\ isFinite scaleFactor = false
  /\ Object3D.scale (Object3D.props (root duck)) = vec3 PInf PInf PInf.
Proof.
  intros Hzero duck scaleFactor.
  assert (Hs : scaleFactor = PInf).
  { subst scaleFactor. unfold scaleFactorOf.
    apply denotes_inv in Hzero. destruct Hzero as [q [-> Hq]].
    unfold div, sgn.
    assert (Hc : (0 ?= q) = Eq) by (apply Qeq_alt; symmetry; exact Hq).
    rewrite Hc. reflexivity. }
  repeat split.
  - exact Hs.
  - rewrite Hs. reflexivity.
  - subst duck.
    destruct (onLoad_transform gltf w) as (E & _). rewrite E.
    destruct (normalize_transform gltf) as (E' & _). rewrite E'.
    fold scaleFactor. rewrite Hs. reflexivity.
Qed.

(** The theorem at work on a model that is a single point. *)
Lemma C2_point_model_witness :
  maxDimensionOf (setFromObject pointModel) =n= Fin 0
  /\ scaleFactorOf (setFromObject pointModel) = PInf
  /\ isFinite (scaleFactorOf (setFromObject pointModel)) = false
  /\ Object3D.scale
       (Object3D.props (root (rubberDuck (snd (onLoad pointModel boot)))))
     = vec3 PInf PInf PInf.
Proof.
  split; [reflexivity|].
  apply (C2_degenerate_scale_is_infinite pointModel boot). reflexivity.
Defined.

(** C2, as the claim has it, fails on a model that is a single point
    (and on a model without geometry): the largest extent is zero, yet
    the scale factor is not 1 and not finite, and the scale of the
    root, which was 1, is no longer what it was. *)
Lemma C2_point_model_counterexample :
  maxDimensionOf (setFromObject pointModel) =n= Fin 0
  /\ maxDimensionOf (setFromObject emptyModel) =n= Fin 0
  /\ ~ (scaleFactorOf (setFromObject pointModel) =n= Fin 1)
  /\ ~ (scaleFactorOf (setFromObject emptyModel) =n= Fin 1)
  /\ isFinite (scaleFactorOf (setFromObject pointModel)) = false
  /\ Object3D.scale (Object3D.props (root pointModel)) = one3
  /\ Object3D.scale
       (Object3D.props (root (rubberDuck (snd (onLoad pointModel boot)))))
     <> Object3D.scale (Object3D.props (root pointModel)).
Proof.
  repeat split; try reflexivity; try (intros H; exact H); discriminate.
Qed.

(** C3.  On the sample model, with extents [(2, 10, 4)] from the
    origin, the scale factor is 0.5 and the root is moved to
    [(-1, 0, -2)]: minus the centre as measured before scaling along
    the two horizontal axes (lines 53-54), and [-box.min.y *
    scaleFactor] along the up axis (line 55).  The lowest point of the
    fitted model is at height 0, but the model is not centred: it spans
    [-1, 0] along the first axis and [-2, 0] along the third, so its
    centre is at [(-0.5, _, -1)]. *)
Theorem C3_sample_not_centred :
  let duck := rubberDuck (snd (onLoad sampleModel boot)) in
  let box := setFromObject duck in
  scaleFactorOf (setFromObject sampleModel) =n= Fin (1 # 2)
  /\ veq (Object3D.position (Object3D.props (root duck)))
         (vec3 (Fin (- 1)) (Fin 0) (Fin (- 2)))
  /\ y (bmin box) =n= Fin 0
  /\ x (bmin box) =n= Fin (- 1)
  /\ x (bmax box) =n= Fin 0
  /\ z (bmin box) =n= Fin (- 2)
  /\ z (bmax box) =n= Fin 0
  /\ x (getCenter box) =n= Fin (- 1 # 2)
  /\ z (getCenter box) =n= Fin (- 1)
  /\ ~ (x (getCenter box) =n= Fin 0)
  /\ ~ (z (getCenter box) =n= Fin 0).
Proof.
  repeat split; try reflexivity; intros H; vm_compute in H; discriminate.
Qed.

(** ** More on the fit of the model *)





Lemma degenerate_scaleFactor (box : Box3) :
  maxDimensionOf box =n= Fin 0 -> scaleFactorOf box = PInf.
Proof.
  intros Hzero. unfold scaleFactorOf.
  apply denotes_inv in Hzero. destruct Hzero as [q [-> Hq]].
  unfold div, sgn.
  replace (0 ?= q) with Eq by (symmetry; apply Qeq_alt; symmetry; exact Hq).
  reflexivity.
Qed.

Lemma add_not_finite (a b : num) :
  isFinite a = false -> isFinite (add a b) = false.
Proof. destruct a, b; try discriminate; reflexivity. Qed.

(** X3.  For a model whose largest extent is zero, the model callback
    leaves the root at a height that is not a finite number
    ([-box.min.y * Infinity] is infinite, or [NaN] when [box.min.y]
    is zero); the target of the controls and the camera, which are
    placed from the root, are then at such a height too. *)
Theorem X3_degenerate_height_not_finite
  (gltf : Model) (w : World) (v : Viewport.View) :
  maxDimensionOf (setFromObject gltf) =n= Fin 0 ->
  let duck := rubberDuck (snd (onLoad gltf w)) in
  let v' := Viewport.frameCamera duck v in
  isFinite (y (Object3D.position (Object3D.props (root duck)))) = false
  /\ isFinite (y (Viewport.target v')) = false
  /\ isFinite (y (Viewport.position (Viewport.camera v'))) = false.
Proof.
  intros Hzero duck v'.
  pose proof (degenerate_scaleFactor _ Hzero) as Hs.
  assert (H : isFinite (y (Object3D.position (Object3D.props (root duck))))
              = false).
  { subst duck.
    destruct (onLoad_transform gltf w) as (_ & E & _). rewrite E.
    destruct (normalize_transform gltf) as (_ & E' & _). rewrite E'.
    cbn [y setY]. rewrite Hs.
    destruct (y (bmin (setFromObject gltf))) as [q| | |];
      cbn [neg mul]; try reflexivity.
    destruct (sgn (- q)); reflexivity. }
  split; [exact H|]. subst v'. unfold Viewport.frameCamera.
  cbn [Viewport.target Viewport.camera Viewport.position
       Viewport.withCameraPosition set y].
  split; [exact H | apply add_not_finite; exact H].
Qed.

Lemma X3_point_model_witness :
  let duck := rubberDuck (snd (onLoad pointModel boot)) in
  let v' := Viewport.frameCamera duck (Viewport.setup 800 600) in
  isFinite (y (Object3D.position (Object3D.props (root duck)))) = false
  /\ isFinite (y (Viewport.target v')) = false
  /\ isFinite (y (Viewport.position (Viewport.camera v'))) = false.
Proof.
  apply (X3_degenerate_height_not_finite
           pointModel boot (Viewport.setup 800 600)).
  reflexivity.
Defined.

(** ** More on the callbacks *)

Lemma traverse_absorbs (f g : Object3D.Props -> Object3D.Props) :
  (forall p, f (g p) = f p) ->
  forall o,
    Object3D.traverse f (Object3D.traverse g o) = Object3D.traverse f o.
Proof.
  intros Hfg o.
  induction o as [p ch IH] using tree_ind; simpl.
  rewrite Hfg. f_equal.
  rewrite map_map.
  induction IH as [|c ch Hc _ IHch]; simpl; [reflexivity|].
  rewrite Hc, IHch. reflexivity.
Qed.

Lemma eachMesh_absorbs (f g : Material.t -> Material.t) :
  (forall m, f (g m) = f m) ->
  forall p, eachMesh f (eachMesh g p) = eachMesh f p.
Proof.
  intros Hfg [k pos scl rot cs rs]. unfold eachMesh. simpl.
  destruct k; simpl; [reflexivity|]. rewrite Hfg. reflexivity.
Qed.

Lemma atRoot_absorbs (f g : Object3D.Props -> Object3D.Props) :
  (forall p, f (g p) = f p) ->
  forall o, Object3D.atRoot f (Object3D.atRoot g o) = Object3D.atRoot f o.
Proof. intros Hfg [p ch]. simpl. rewrite Hfg. reflexivity. Qed.





(** ** More on runs *)

Lemma run_invariant_on (events : list Event) (I : App -> Prop) :
  (forall e a a', In e events -> I a -> dispatch e a = Some a' -> I a') ->
  forall a a', I a -> run events a = Some a' -> I a'.
Proof.
  induction events as [|e events IH]; intros Hstep a a' Ha Hrun;
    simpl in Hrun.
  - injection Hrun as <-. exact Ha.
  - destruct (dispatch e a) as [a1|] eqn:E; [|discriminate].
    apply (IH (fun e0 b b' Hin => Hstep e0 b b' (or_intror Hin)) a1 a');
      [|exact Hrun].
    exact (Hstep e a a1 (or_introl eq_refl) Ha E).
Qed.

(** What each event does to the world and to the closure. *)
Lemma dispatch_cases (e : Event) (a a' : App) :
  dispatch e a = Some a' ->
  match e with
  | EnvironmentLoaded h =>
      environmentPending a = true
      /\ a' = mkApp (onEnvironmentLoad h (world a)) (closure a)
                    false (modelPending a)
  | EnvironmentFailed _ =>
      environmentPending a = true
      /\ a' = mkApp (world a) (closure a) false (modelPending a)
  | ModelLoaded g =>
      modelPending a = true
      /\ a' = mkApp (fst (onLoad g (world a))) (Some (snd (onLoad g (world a))))
                    (environmentPending a) false
  | ModelFailed err =>
      modelPending a = true
      /\ a' = mkApp (onLoadError err (world a)) (closure a)
                    (environmentPending a) false
  | Changed ch =>
      exists c,
        closure a = Some c
        /\ a' = mkApp (fst (snd (change ch (world a, c))))
                      (Some (snd (snd (change ch (world a, c)))))
                      (environmentPending a) (modelPending a)
  end.
Proof.
  destruct e as [h|err|g|err|ch]; unfold dispatch.
  - destruct (environmentPending a); [|discriminate].
    intros H. injection H as <-. split; reflexivity.
  - destruct (environmentPending a); [|discriminate].
    intros H. injection H as <-. split; reflexivity.
  - destruct (modelPending a); [|discriminate].
    destruct (onLoad g (world a)) as [w c].
    intros H. injection H as <-. split; reflexivity.
  - destruct (modelPending a); [|discriminate].
    intros H. injection H as <-. split; reflexivity.
  - destruct (closure a) as [c|]; [|discriminate].
    intros H. exists c. split; [reflexivity|].
    destruct (change ch (world a, c)) as [k [w1 c1]].
    injection H as <-. reflexivity.
Qed.

Lemma change_renderer (ch : Change) (l : Live) :
  let w := fst l in
  let w' := fst (snd (change ch l)) in
  Renderer.toneMapping (renderer w')
  = match ch with
    | ToneMapping v => THREE v
    | _ => Renderer.toneMapping (renderer w)
    end
  /\ Renderer.toneMappingExposure (renderer w')
     = match ch with
       | ToneMapping _ => Window.toneMappingExposure (window w)
       | Exposure v => v
       | _ => Renderer.toneMappingExposure (renderer w)
       end.
Proof.
  destruct l as [[win r h b e s al dl co] c]. destruct win.
  destruct ch; cbn; try (split; reflexivity).
  destruct e as [[]|]; split; reflexivity.
Qed.

(** X6.  In every state the program reaches, the renderer's tone
    mapping and exposure are those of the parameters [toneMapping] and
    [toneMappingExposure]. *)
Theorem X6_renderer_mirrors_parameters (events : list Event) (a : App) :
  run events start = Some a ->
  Renderer.toneMapping (renderer (world a))
  = THREE (Window.toneMapping (window (world a)))
  /\ Renderer.toneMappingExposure (renderer (world a))
     = Window.toneMappingExposure (window (world a)).
Proof.
  apply (run_invariant (fun a =>
    Renderer.toneMapping (renderer (world a))
    = THREE (Window.toneMapping (window (world a)))
    /\ Renderer.toneMappingExposure (renderer (world a))
       = Window.toneMappingExposure (window (world a)))).
  - intros e a0 a1 [Ht He] Hstep. apply dispatch_cases in Hstep.
    destruct e as [h|err|g|err|ch].
    + destruct Hstep as [_ ->]. cbn. split; assumption.
    + destruct Hstep as [_ ->]. cbn. split; assumption.
    + destruct Hstep as [_ ->]. cbn. split; assumption.
    + destruct Hstep as [_ ->]. cbn. split; assumption.
    + destruct Hstep as (c & _ & ->). cbn [world].
      destruct (change_renderer ch (world a0, c)) as [Rt Re].
      cbn [fst] in Rt, Re. rewrite Rt, Re, change_window. cbn [fst].
      destruct (window (world a0)) eqn:Ew. cbn in Ht, He.
      destruct ch; cbn; split; assumption || reflexivity.
  - split; reflexivity.
Qed.

Lemma X6_sample_witness :
  Renderer.toneMapping (renderer (world (stateAfter sampleRun)))
  = THREE (Window.toneMapping (window (world (stateAfter sampleRun))))
  /\ Renderer.toneMappingExposure (renderer (world (stateAfter sampleRun)))
     = Window.toneMappingExposure (window (world (stateAfter sampleRun))).
Proof.
  apply (X6_renderer_mirrors_parameters sampleRun (stateAfter sampleRun)).
  vm_compute. reflexivity.
Defined.

Lemma change_light1 (ch : Change) (l : Live) :
  let c' := snd (snd (change ch l)) in
  let win' := store ch (window (fst l)) in
  match ch with
  | LightIntensity _ | LightX _ | LightY _ | LightZ _ =>
      Light.intensity (light1 c') = Window.lightIntensity win'
      /\ Light.position (light1 c')
         = vec3 (Window.lightX win') (Window.lightY win') (Window.lightZ win')
      /\ Light.kind (light1 c') = Light.kind (light1 (snd l))
  | _ =>
      light1 c' = light1 (snd l)
      /\ Window.lightIntensity win' = Window.lightIntensity (window (fst l))
      /\ Window.lightX win' = Window.lightX (window (fst l))
      /\ Window.lightY win' = Window.lightY (window (fst l))
      /\ Window.lightZ win' = Window.lightZ (window (fst l))
  end.
Proof.
  destruct l as [[win r h b e s al dl co] c]. destruct win.
  destruct ch; cbn; try (repeat split; reflexivity).
  destruct e as [[]|]; repeat split; reflexivity.
Qed.

(** X7.  In every state the program reaches once the model has
    loaded, the point light has the intensity and the position of the
    parameters [lightIntensity], [lightX], [lightY], [lightZ], and is
    still a point light of range 50. *)
Theorem X7_light_mirrors_parameters
  (events : list Event) (a : App) (c : Closure) :
  run events start = Some a ->
  closure a = Some c ->
  Light.intensity (light1 c) = Window.lightIntensity (window (world a))
  /\ Light.position (light1 c)
     = vec3 (Window.lightX (window (world a)))
            (Window.lightY (window (world a)))
            (Window.lightZ (window (world a)))
  /\ Light.kind (light1 c) = Light.Point (Fin 50).
Proof.
  intros Hrun. revert c.
  apply (run_invariant (fun a => forall c,
    closure a = Some c ->
    Light.intensity (light1 c) = Window.lightIntensity (window (world a))
    /\ Light.position (light1 c)
       = vec3 (Window.lightX (window (world a)))
              (Window.lightY (window (world a)))
              (Window.lightZ (window (world a)))
    /\ Light.kind (light1 c) = Light.Point (Fin 50))) with (3 := Hrun).
  - intros e a0 a1 IH Hstep c1 Hc1. apply dispatch_cases in Hstep.
    destruct e as [h|err|g|err|ch].
    + destruct Hstep as [_ ->]. cbn in *. exact (IH c1 Hc1).
    + destruct Hstep as [_ ->]. cbn in *. exact (IH c1 Hc1).
    + destruct Hstep as [_ ->]. cbn in Hc1. injection Hc1 as <-.
      cbn. repeat split.
    + destruct Hstep as [_ ->]. cbn in *. exact (IH c1 Hc1).
    + destruct Hstep as (c & Hc & ->).
      destruct (IH c Hc) as (Hi & Hp & Hk).
      pose proof (change_light1 ch (world a0, c)) as H.
      pose proof (change_window ch (world a0, c)) as Hw.
      destruct (change ch (world a0, c)) as [k [w1 c']].
      cbn [closure world fst snd] in Hc1, H, Hw |- *.
      injection Hc1 as <-. rewrite Hw.
      destruct ch; cbn zeta in H;
        try (destruct H as (H1 & H2 & H3); rewrite H1, H2, H3;
             repeat split; assumption);
        destruct H as (-> & -> & -> & -> & ->); repeat split; assumption.
  - intros c Hc. discriminate.
Qed.

Lemma X7_sample_witness :
  Light.intensity (light1 (closureOf (stateAfter sampleRun)))
  = Window.lightIntensity (window (world (stateAfter sampleRun)))
  /\ Light.position (light1 (closureOf (stateAfter sampleRun)))
     = vec3 (Window.lightX (window (world (stateAfter sampleRun))))
            (Window.lightY (window (world (stateAfter sampleRun))))
            (Window.lightZ (window (world (stateAfter sampleRun))))
  /\ Light.kind (light1 (closureOf (stateAfter sampleRun)))
     = Light.Point (Fin 50).
Proof.
  apply (X7_light_mirrors_parameters sampleRun (stateAfter sampleRun)
           (closureOf (stateAfter sampleRun)));
    vm_compute; reflexivity.
Defined.

Lemma map_constant {A B C : Type} (f : A -> B) (b : B)
  (l : list A) (l' : list C) :
  Forall (fun x => f x = b) l ->
  List.length l = List.length l' ->
  map f l = map (fun _ => b) l'.
Proof.
  intros Hall. revert l'.
  induction Hall as [|x l Hx _ IH]; intros [|y l'] Hlen;
    try discriminate Hlen; [reflexivity|].
  cbn. rewrite Hx. f_equal. apply IH. injection Hlen as Hlen. exact Hlen.
Qed.

(** X8.  In every state the program reaches once the model has
    loaded, the metalness and roughness of every mesh material are
    those of the parameters [metalness] and [roughness].  The
    materials are those of the model that was loaded, one for one, and
    the tree of the model is the one that was loaded. *)
Theorem X8_materials_mirror_parameters
  (events : list Event) (a : App) (c : Closure) :
  run events start = Some a ->
  closure a = Some c ->
  Forall (fun m =>
    Material.metalness m = Window.metalness (window (world a))
    /\ Material.roughness m = Window.roughness (window (world a)))
    (Object3D.materials (root (rubberDuck c)))
  /\ exists gltf,
       In (ModelLoaded gltf) events
       /\ map Material.metalness (Object3D.materials (root (rubberDuck c)))
          = map (fun _ => Window.metalness (window (world a)))
                (Object3D.materials (root gltf))
       /\ map Material.roughness (Object3D.materials (root (rubberDuck c)))
          = map (fun _ => Window.roughness (window (world a)))
                (Object3D.materials (root gltf))
       /\ map Object3D.isMesh (Object3D.nodes (root (rubberDuck c)))
          = map Object3D.isMesh (Object3D.nodes (root gltf)).
Proof.
  intros Hrun Hc.
  assert (H :
    Forall (fun m =>
      Material.metalness m = Window.metalness (window (world a))
      /\ Material.roughness m = Window.roughness (window (world a)))
      (Object3D.materials (root (rubberDuck c)))
    /\ exists gltf,
         In (ModelLoaded gltf) events
         /\ List.length (Object3D.materials (root (rubberDuck c)))
            = List.length (Object3D.materials (root gltf))
         /\ map Object3D.isMesh (Object3D.nodes (root (rubberDuck c)))
            = map Object3D.isMesh (Object3D.nodes (root gltf))).
  { revert c Hc.
    apply (run_invariant_on events (fun a =>
      (modelPending a = true ->
       closure a = None
       /\ Window.defaultMetalness (window (world a))
          = Window.metalness (window (world a))
       /\ Window.defaultRoughness (window (world a))
          = Window.roughness (window (world a)))
      /\ forall c, closure a = Some c ->
           Forall (fun m =>
             Material.metalness m = Window.metalness (window (world a))
             /\ Material.roughness m = Window.roughness (window (world a)))
             (Object3D.materials (root (rubberDuck c)))
           /\ exists gltf,
                In (ModelLoaded gltf) events
                /\ List.length (Object3D.materials (root (rubberDuck c)))
                   = List.length (Object3D.materials (root gltf))
                /\ map Object3D.isMesh
                       (Object3D.nodes (root (rubberDuck c)))
                   = map Object3D.isMesh (Object3D.nodes (root gltf))))
      with (3 := Hrun).
    - intros e a0 a1 Hin [IHn IHs] Hstep. apply dispatch_cases in Hstep.
      destruct e as [h|err|g|err|ch].
      + destruct Hstep as [_ ->]. cbn. split; assumption.
      + destruct Hstep as [_ ->]. cbn. split; assumption.
      + destruct Hstep as [Hp ->]. split; [discriminate|].
        intros c Hc.
        assert (E : snd (onLoad g (world a0)) = c)
          by (cbn [closure] in Hc; congruence).
        subst c. cbn [world]. rewrite onLoad_materials, onLoad_window.
        split.
        * destruct (IHn Hp) as (_ & -> & ->).
          apply Forall_forall. intros m Hm. apply in_map_iff in Hm.
          destruct Hm as [m0 [<- _]]. split; reflexivity.
        * exists g. split; [exact Hin|]. split; [apply List.length_map|].
          apply onLoad_kinds.
      + destruct Hstep as [_ ->]. cbn. split; [discriminate | assumption].
      + destruct Hstep as (c & Hc & ->). split.
        * cbn [modelPending]. intros Hp. destruct (IHn Hp) as (Habs & _).
          rewrite Habs in Hc. discriminate.
        * intros c1 Hc1.
          pose proof (change_materials ch (world a0, c)) as Hm.
          pose proof (change_window ch (world a0, c)) as Hw.
          pose proof (change_kinds ch (world a0, c)) as Hk.
          assert (E : snd (snd (change ch (world a0, c))) = c1)
            by (cbn [closure] in Hc1; congruence).
          subst c1. cbn [world]. cbn [fst snd] in Hm, Hw, Hk.
          rewrite Hm, Hw, Hk, List.length_map.
          destruct (IHs c Hc) as [Hall (g & Hg & Hlen & Hkinds)].
          split; [|exists g; repeat split; assumption].
          rewrite Forall_forall in Hall. apply Forall_forall.
          intros m Hin'. apply in_map_iff in Hin'.
          destruct Hin' as [m0 [<- Hin0]].
          destruct (Hall m0 Hin0) as [Em Er].
          destruct (window (world a0)); destruct ch; cbn in *;
            split; assumption || reflexivity.
    - split; [intros _; repeat split | discriminate]. }
  destruct H as [Hall (g & Hg & Hlen & Hk)].
  split; [exact Hall|]. exists g. split; [exact Hg|].
  split; [|split; [|exact Hk]].
  - apply map_constant; [|exact Hlen].
    eapply Forall_impl; [|exact Hall]. intros m [Hm _]. exact Hm.
  - apply map_constant; [|exact Hlen].
    eapply Forall_impl; [|exact Hall]. intros m [_ Hr]. exact Hr.
Qed.

Lemma X8_sample_witness :
  Forall (fun m =>
    Material.metalness m
    = Window.metalness (window (world (stateAfter sampleRun)))
    /\ Material.roughness m
       = Window.roughness (window (world (stateAfter sampleRun))))
    (Object3D.materials
       (root (rubberDuck (closureOf (stateAfter sampleRun)))))
  /\ exists gltf,
       In (ModelLoaded gltf) sampleRun
       /\ map Material.metalness
             (Object3D.materials
                (root (rubberDuck (closureOf (stateAfter sampleRun)))))
          = map (fun _ =>
                   Window.metalness (window (world (stateAfter sampleRun))))
                (Object3D.materials (root gltf))
       /\ map Material.roughness
             (Object3D.materials
                (root (rubberDuck (closureOf (stateAfter sampleRun)))))
          = map (fun _ =>
                   Window.roughness (window (world (stateAfter sampleRun))))
                (Object3D.materials (root gltf))
       /\ map Object3D.isMesh
             (Object3D.nodes
                (root (rubberDuck (closureOf (stateAfter sampleRun)))))
          = map Object3D.isMesh (Object3D.nodes (root gltf)).
Proof.
  apply (X8_materials_mirror_parameters sampleRun (stateAfter sampleRun)
           (closureOf (stateAfter sampleRun)));
    vm_compute; reflexivity.
Defined.

(** What a change on the control panel does to the root of the model:
    nothing to its place and size, and to its rotation only about the
    up axis. *)
Lemma change_transform (ch : Change) (l : Live) :
  let p := Object3D.props (root (rubberDuck (snd l))) in
  let duck' := rubberDuck (snd (snd (change ch l))) in
  let p' := Object3D.props (root duck') in
  Object3D.position p' = Object3D.position p
  /\ Object3D.scale p' = Object3D.scale p
  /\ geometry duck' = geometry (rubberDuck (snd l))
  /\ x (Object3D.rotation p') = x (Object3D.rotation p)
  /\ z (Object3D.rotation p') = z (Object3D.rotation p)
  /\ y (Object3D.rotation p')
     = match ch with
       | Rotation v => v
       | _ => y (Object3D.rotation p)
       end.
Proof.
  destruct l as [[win r h b e s al dl co] [[[p chn] g] li]]. destruct win.
  destruct ch; cbn; try (repeat split; reflexivity);
    try (unfold eachMesh; destruct (Object3D.kind p); repeat split;
         reflexivity).
  destruct e as [[]|]; repeat split; reflexivity.
Qed.

(** X9.  The fit is made once: in every state the program reaches
    once the model has loaded, the position and the scale of the
    model's root, and so its bounding box, are those the model callback
    gave it.  No control changes them. *)
Theorem X9_fit_is_static (events : list Event) (a : App) (c : Closure) :
  run events start = Some a ->
  closure a = Some c ->
  exists gltf,
    In (ModelLoaded gltf) events
    /\ Object3D.position (Object3D.props (root (rubberDuck c)))
       = Object3D.position (Object3D.props (root (normalize gltf)))
    /\ Object3D.scale (Object3D.props (root (rubberDuck c)))
       = Object3D.scale (Object3D.props (root (normalize gltf)))
    /\ geometry (rubberDuck c) = geometry gltf
    /\ setFromObject (rubberDuck c) = setFromObject (normalize gltf).
Proof.
  intros Hrun Hc.
  assert (H : exists gltf,
    In (ModelLoaded gltf) events
    /\ Object3D.position (Object3D.props (root (rubberDuck c)))
       = Object3D.position (Object3D.props (root (normalize gltf)))
    /\ Object3D.scale (Object3D.props (root (rubberDuck c)))
       = Object3D.scale (Object3D.props (root (normalize gltf)))
    /\ geometry (rubberDuck c) = geometry (normalize gltf)).
  { revert c Hc.
    apply (run_invariant_on events (fun a => forall c,
      closure a = Some c ->
      exists gltf,
        In (ModelLoaded gltf) events
        /\ Object3D.position (Object3D.props (root (rubberDuck c)))
           = Object3D.position (Object3D.props (root (normalize gltf)))
        /\ Object3D.scale (Object3D.props (root (rubberDuck c)))
           = Object3D.scale (Object3D.props (root (normalize gltf)))
        /\ geometry (rubberDuck c) = geometry (normalize gltf)))
      with (3 := Hrun).
    - intros e a0 a1 Hin IH Hstep c1 Hc1. apply dispatch_cases in Hstep.
      destruct e as [h|err|g|err|ch].
      + destruct Hstep as [_ ->]. exact (IH c1 Hc1).
      + destruct Hstep as [_ ->]. exact (IH c1 Hc1).
      + destruct Hstep as [_ ->].
        assert (E : snd (onLoad g (world a0)) = c1)
          by (cbn [closure] in Hc1; congruence).
        subst c1. exists g.
        destruct (onLoad_transform g (world a0)) as (Es & Ep & _ & Eg).
        repeat split; assumption.
      + destruct Hstep as [_ ->]. exact (IH c1 Hc1).
      + destruct Hstep as (c0 & Hc0 & ->).
        assert (E : snd (snd (change ch (world a0, c0))) = c1)
          by (cbn [closure] in Hc1; congruence).
        subst c1. destruct (IH c0 Hc0) as (g & Hg & Hp & Hs & Hgeo).
        destruct (change_transform ch (world a0, c0))
          as (Ep & Es & Eg & _).
        cbn [snd] in Ep, Es, Eg. exists g.
        rewrite Ep, Es, Eg. repeat split; assumption.
    - intros c0 Hc0. discriminate. }
  destruct H as (g & Hin & Hp & Hs & Hg). exists g.
  destruct (normalize_transform g) as (_ & _ & _ & Eg).
  split; [exact Hin|]. split; [exact Hp|]. split; [exact Hs|].
  split; [rewrite Hg; exact Eg|].
  unfold setFromObject. rewrite Hp, Hs, Hg. reflexivity.
Qed.

Lemma X9_sample_witness :
  exists gltf,
    In (ModelLoaded gltf) sampleRun
    /\ Object3D.position
         (Object3D.props (root (rubberDuck (closureOf (stateAfter sampleRun)))))
       = Object3D.position (Object3D.props (root (normalize gltf)))
    /\ Object3D.scale
         (Object3D.props (root (rubberDuck (closureOf (stateAfter sampleRun)))))
       = Object3D.scale (Object3D.props (root (normalize gltf)))
    /\ geometry (rubberDuck (closureOf (stateAfter sampleRun)))
       = geometry gltf
    /\ setFromObject (rubberDuck (closureOf (stateAfter sampleRun)))
       = setFromObject (normalize gltf).
Proof.
  apply (X9_fit_is_static sampleRun (stateAfter sampleRun)
           (closureOf (stateAfter sampleRun)));
    vm_compute; reflexivity.
Defined.

Lemma change_rotation_parameter (ch : Change) (win : Window.t) :
  Window.rotation (store ch win)
  = match ch with Rotation v => v | _ => Window.rotation win end.
Proof. destruct win, ch; reflexivity. Qed.

(** X10.  When the loaded root is not rotated about the up axis, as
    the model loader gives it, then in every state the program reaches
    once the model has loaded the rotation of the root about the up
    axis is the parameter [rotation]. *)
Theorem X10_rotation_mirrors_parameter
  (events : list Event) (a : App) (c : Closure) :
  (forall gltf, In (ModelLoaded gltf) events ->
     y (Object3D.rotation (Object3D.props (root gltf))) = Fin 0) ->
  run events start = Some a ->
  closure a = Some c ->
  y (Object3D.rotation (Object3D.props (root (rubberDuck c))))
  = Window.rotation (window (world a)).
Proof.
  intros Hflat Hrun. revert c.
  apply (run_invariant_on events (fun a =>
    (modelPending a = true ->
     closure a = None /\ Window.rotation (window (world a)) = Fin 0)
    /\ forall c, closure a = Some c ->
         y (Object3D.rotation (Object3D.props (root (rubberDuck c))))
         = Window.rotation (window (world a)))) with (3 := Hrun).
  - intros e a0 a1 Hin [IHn IHs] Hstep. apply dispatch_cases in Hstep.
    destruct e as [h|err|g|err|ch].
    + destruct Hstep as [_ ->]. cbn. split; assumption.
    + destruct Hstep as [_ ->]. cbn. split; assumption.
    + destruct Hstep as [Hp ->]. split; [discriminate|].
      intros c Hc.
      assert (E : snd (onLoad g (world a0)) = c)
        by (cbn [closure] in Hc; congruence).
      subst c. cbn [world]. rewrite onLoad_window.
      destruct (onLoad_transform g (world a0)) as (_ & _ & -> & _).
      destruct (normalize_transform g) as (_ & _ & -> & _).
      destruct (IHn Hp) as (_ & ->). exact (Hflat g Hin).
    + destruct Hstep as [_ ->]. cbn. split; [discriminate | assumption].
    + destruct Hstep as (c & Hc & ->). split.
      * cbn [modelPending]. intros Hp. destruct (IHn Hp) as (Habs & _).
        rewrite Habs in Hc. discriminate.
      * intros c1 Hc1.
        assert (E : snd (snd (change ch (world a0, c))) = c1)
          by (cbn [closure] in Hc1; congruence).
        subst c1. cbn [world].
        destruct (change_transform ch (world a0, c))
          as (_ & _ & _ & _ & _ & Ey).
        cbn [snd] in Ey. rewrite Ey, change_window. cbn [fst].
        rewrite change_rotation_parameter.
        destruct ch; try exact (IHs c Hc). reflexivity.
  - split; [intros _; split; reflexivity | discriminate].
Qed.

Lemma X10_sample_witness :
  y (Object3D.rotation
       (Object3D.props (root (rubberDuck (closureOf (stateAfter sampleRun))))))
  = Window.rotation (window (world (stateAfter sampleRun))).
Proof.
  apply (X10_rotation_mirrors_parameter sampleRun (stateAfter sampleRun)
           (closureOf (stateAfter sampleRun))).
  - intros gltf Hin. cbn in Hin.
    repeat (destruct Hin as [Hin|Hin]; [try discriminate Hin|]);
      [|contradiction].
    injection Hin as <-. reflexivity.
  - vm_compute. reflexivity.
  - vm_compute. reflexivity.
Defined.

(** ** The stages of the program *)

Lemma change_keeps_scene (ch : Change) (l : Live) :
  let w := fst (snd (change ch l)) in
  sceneChildren w = sceneChildren (fst l)
  /\ console w = console (fst l)
  /\ background w = background (fst l)
  /\ environment w = environment (fst l).
Proof.
  destruct l as [[win r h b e s al dl co] c]. destruct win.
  destruct ch; cbn; try (repeat split; reflexivity).
  destruct e as [[]|]; repeat split; reflexivity.
Qed.

(** One event, stage by stage: a pending model load ends with the
    model event; in the other two stages the stage is kept, and after
    a failure only the environment load can still end. *)
Lemma stage_step (e : Event) (a a' : App) (st : Stage) :
  inStage a st ->
  dispatch e a = Some a' ->
  match st with
  | Pending =>
      match e with
      | ModelLoaded _ => inStage a' Running
      | ModelFailed error => inStage a' (Failed error)
      | Changed _ => False
      | _ => inStage a' Pending
      end
  | Running => inStage a' Running /\ isModelEvent e = false
  | Failed error => inStage a' (Failed error) /\ isEnvironmentEvent e = true
  end.
Proof.
  intros Hst Hstep. apply dispatch_cases in Hstep.
  destruct st as [| |error]; cbn [inStage] in Hst;
    destruct Hst as (Hp & Hc & Hs & Hco);
    destruct e as [h|err|g|err|ch].
  - destruct Hstep as [_ ->]. cbn. repeat split; assumption.
  - destruct Hstep as [_ ->]. cbn. repeat split; assumption.
  - destruct Hstep as [_ ->]. cbn. rewrite Hs, Hco.
    repeat split; discriminate.
  - destruct Hstep as [_ ->]. cbn. rewrite Hs, Hco. repeat split; assumption.
  - destruct Hstep as (c & Hc' & _). rewrite Hc in Hc'. discriminate.
  - destruct Hstep as [_ ->]. cbn. repeat split; assumption.
  - destruct Hstep as [_ ->]. cbn. repeat split; assumption.
  - destruct Hstep as [Habs _]. rewrite Hp in Habs. discriminate.
  - destruct Hstep as [Habs _]. rewrite Hp in Habs. discriminate.
  - destruct Hstep as (c & Hc' & ->).
    destruct (change_keeps_scene ch (world a, c)) as (Es & Eco & _).
    cbn [fst] in Es, Eco.
    cbn [inStage isModelEvent modelPending closure world].
    rewrite Es, Eco.
    repeat split; try assumption. discriminate.
  - destruct Hstep as [_ ->]. cbn. repeat split; assumption.
  - destruct Hstep as [_ ->]. cbn. repeat split; assumption.
  - destruct Hstep as [Habs _]. rewrite Hp in Habs. discriminate.
  - destruct Hstep as [Habs _]. rewrite Hp in Habs. discriminate.
  - destruct Hstep as (c & Hc' & _). rewrite Hc in Hc'. discriminate.
Qed.

Lemma run_kept_stage (events : list Event) (a a' : App) (st : Stage) :
  st <> Pending ->
  inStage a st ->
  run events a = Some a' ->
  inStage a' st
  /\ match st with
     | Failed _ => Forall (fun e => isEnvironmentEvent e = true) events
     | _ => Forall (fun e => isModelEvent e = false) events
     end.
Proof.
  intros Hst. revert a.
  induction events as [|e events IH]; intros a Ha Hrun; simpl in Hrun.
  - injection Hrun as <-. split; [exact Ha|]. destruct st; constructor.
  - destruct (dispatch e a) as [a1|] eqn:E; [|discriminate].
    pose proof (stage_step e a a1 st Ha E) as Hstep.
    destruct st as [| |error]; [contradiction| |];
      destruct Hstep as [Ha1 He];
      destruct (IH a1 Ha1 Hrun) as [Hfin Hall];
      (split; [exact Hfin | constructor; assumption]).
Qed.

Lemma start_pending : inStage start Pending.
Proof. cbn. repeat split. Qed.

Lemma run_stage (events : list Event) (a a' : App) :
  inStage a Pending ->
  run events a = Some a' ->
  inStage a' (stageOf events).
Proof.
  revert a. induction events as [|e events IH]; intros a Ha Hrun;
    simpl in Hrun.
  - injection Hrun as <-. exact Ha.
  - destruct (dispatch e a) as [a1|] eqn:E; [|discriminate].
    pose proof (stage_step e a a1 Pending Ha E) as Hstep.
    destruct e as [h|err|g|err|ch]; cbn [stageOf].
    + exact (IH a1 Hstep Hrun).
    + exact (IH a1 Hstep Hrun).
    + apply (run_kept_stage events a1 a' Running); [discriminate | | ];
        assumption.
    + apply (run_kept_stage events a1 a' (Failed err));
        [discriminate | | ]; assumption.
    + contradiction.
Qed.

(** X11.  Every state the program reaches is in one of three stages,
    decided by the first model event of the run.  While the model load
    is pending: no closure, the two static lights in the scene, an empty
    console.  Once the model has loaded: the closure, the two lights
    followed by the model and the point light, one line on the console.
    Once the model load has failed: no closure, the two lights, the one
    error line. *)
Theorem X11_stage_of_run (events : list Event) (a : App) :
  run events start = Some a ->
  inStage a (stageOf events).
Proof. apply run_stage. exact start_pending. Qed.

Lemma X11_sample_witness : inStage (stateAfter sampleRun) (stageOf sampleRun).
Proof. apply (X11_stage_of_run sampleRun (stateAfter sampleRun)).
  vm_compute. reflexivity.
Defined.

Lemma pending_at_end (events : list Event) (a a' : App) :
  inStage a Pending ->
  run events a = Some a' ->
  modelPending a' = true ->
  Forall (fun e => isEnvironmentEvent e = true) events.
Proof.
  revert a. induction events as [|e events IH]; intros a Ha Hrun Hp;
    simpl in Hrun.
  - constructor.
  - destruct (dispatch e a) as [a1|] eqn:E; [|discriminate].
    pose proof (stage_step e a a1 Pending Ha E) as Hstep.
    destruct e as [h|err|g|err|ch].
    + constructor; [reflexivity | exact (IH a1 Hstep Hrun Hp)].
    + constructor; [reflexivity | exact (IH a1 Hstep Hrun Hp)].
    + exfalso.
      destruct (run_kept_stage events a1 a' Running) as [(Habs & _) _];
        [discriminate | assumption | assumption |].
      rewrite Habs in Hp. discriminate.
    + exfalso.
      destruct (run_kept_stage events a1 a' (Failed err)) as [(Habs & _) _];
        [discriminate | assumption | assumption |].
      rewrite Habs in Hp. discriminate.
    + contradiction.
Qed.

(** X12.  A failed model load is final.  In a run in which the model
    load fails, every other event is the end of the environment load:
    no control is ever changed, before or after, because no control
    panel is ever built; and the run ends with the two static lights
    alone in the scene and the one error line on the console. *)
Theorem X12_model_failure_is_final
  (before after : list Event) (error : string) (a : App) :
  run (before ++ ModelFailed error :: after) start = Some a ->
  inStage a (Failed error)
  /\ Forall (fun e => isEnvironmentEvent e = true) (before ++ after).
Proof.
  rewrite run_app. intros Hrun.
  destruct (run before start) as [a0|] eqn:E0; [|discriminate].
  cbn [run] in Hrun.
  destruct (dispatch (ModelFailed error) a0) as [a1|] eqn:E1; [|discriminate].
  pose proof (dispatch_cases _ _ _ E1) as [Hp _].
  pose proof (pending_at_end before start a0 start_pending E0 Hp) as Hbefore.
  assert (Hst0 : inStage a0 Pending).
  { clear - E0 Hbefore. revert E0. generalize start_pending.
    generalize start. induction before as [|e before IH]; intros s Hs E0.
    - injection E0 as <-. exact Hs.
    - simpl in E0. destruct (dispatch e s) as [s1|] eqn:E; [|discriminate].
      inversion Hbefore as [|? ? He Hrest]; subst.
      pose proof (stage_step e s s1 Pending Hs E) as Hstep.
      destruct e; try discriminate He; exact (IH Hrest s1 Hstep E0). }
  pose proof (stage_step _ a0 a1 Pending Hst0 E1) as H1. cbn in H1.
  destruct (run_kept_stage after a1 a (Failed error)) as [Hfin Hafter];
    [discriminate | exact H1 | exact Hrun |].
  split; [exact Hfin|]. apply Forall_app. split; assumption.
Qed.

Lemma X12_failed_run_witness :
  inStage (stateAfter failedRun) (Failed "404")
  /\ Forall (fun e => isEnvironmentEvent e = true)
       ([EnvironmentLoaded sampleTexture] ++ []).
Proof.
  apply (X12_model_failure_is_final
           [EnvironmentLoaded sampleTexture] [] "404" (stateAfter failedRun)).
  vm_compute. reflexivity.
Defined.

(** X13.  The two loads end in either order with the same result:
    an environment event and a model event commute, in every state. *)
Theorem X13_loads_commute (e1 e2 : Event) (a : App) :
  isEnvironmentEvent e1 = true ->
  isModelEvent e2 = true ->
  run [e1; e2] a = run [e2; e1] a.
Proof.
  intros H1 H2.
  destruct a as [[win r h b e s al dl co] c ep mp].
  destruct e1 as [h1|err1|g1|err1|ch1]; try discriminate H1;
    destruct e2 as [h2|err2|g2|err2|ch2]; try discriminate H2;
    destruct ep, mp; reflexivity.
Qed.

Lemma X13_sample_witness :
  run [EnvironmentLoaded sampleTexture; ModelLoaded sampleModel] start
  = run [ModelLoaded sampleModel; EnvironmentLoaded sampleTexture] start.
Proof.
  apply (X13_loads_commute (EnvironmentLoaded sampleTexture)
           (ModelLoaded sampleModel) start);
    reflexivity.
Defined.

(** ** The environment *)

Lemma change_hdr (ch : Change) (l : Live) :
  hdr (fst (snd (change ch l)))
  = match ch, environment (fst l) with
    | EnvMapIntensity v, Some _ =>
        option_map (fun t => Texture.make (Texture.mapping t) (Some v))
                   (hdr (fst l))
    | _, _ => hdr (fst l)
    end.
Proof.
  destruct l as [[win r h b e s al dl co] c]. destruct win.
  destruct ch; cbn; try reflexivity.
  destruct e as [[]|]; reflexivity.
Qed.

(** X14.  In every state the program reaches, the scene's background
    and environment are the same reference, set exactly when the
    texture is there, and unset as long as the environment load is
    pending; the texture, once there, has the equirectangular
    reflection mapping, whatever the controls have done. *)
Theorem X14_environment_consistent (events : list Event) (a : App) :
  run events start = Some a ->
  background (world a) = environment (world a)
  /\ (environment (world a) = None <-> hdr (world a) = None)
  /\ (environmentPending a = true -> environment (world a) = None)
  /\ (forall t, hdr (world a) = Some t ->
        Texture.mapping t = Texture.EquirectangularReflectionMapping).
Proof.
  apply (run_invariant (fun a =>
    background (world a) = environment (world a)
    /\ (environment (world a) = None <-> hdr (world a) = None)
    /\ (environmentPending a = true -> environment (world a) = None)
    /\ (forall t, hdr (world a) = Some t ->
          Texture.mapping t = Texture.EquirectangularReflectionMapping))).
  - intros e a0 a1 (Hb & Hn & Hp & Hm) Hstep. apply dispatch_cases in Hstep.
    destruct e as [h|err|g|err|ch].
    + destruct Hstep as [_ ->]. cbn. repeat split; try discriminate.
      intros t Ht. injection Ht as <-. reflexivity.
    + destruct Hstep as [_ ->]. cbn. repeat split; try apply Hn; try assumption.
      discriminate.
    + destruct Hstep as [_ ->]. cbn. repeat split; try apply Hn; assumption.
    + destruct Hstep as [_ ->]. cbn. repeat split; try apply Hn; assumption.
    + destruct Hstep as (c & _ & ->).
      destruct (change_keeps_scene ch (world a0, c)) as (_ & _ & Eb & Ee).
      pose proof (change_hdr ch (world a0, c)) as Eh.
      cbn [fst] in Eb, Ee, Eh.
      cbn [world environmentPending]. rewrite Eb, Ee, Eh.
      split; [exact Hb|]. split; [|split; [exact Hp|]].
      * destruct ch; try exact Hn.
        destruct (environment (world a0)); [|exact Hn].
        destruct (hdr (world a0)); cbn; [|exact Hn].
        split; discriminate.
      * intros t Ht. destruct ch; try exact (Hm t Ht).
        destruct (environment (world a0)); [|exact (Hm t Ht)].
        destruct (hdr (world a0)) as [tex|]; cbn in Ht; [|discriminate].
        injection Ht as <-. cbn. apply Hm. reflexivity.
  - cbn. repeat split; discriminate.
Qed.

Lemma X14_sample_witness :
  background (world (stateAfter sampleRun))
  = environment (world (stateAfter sampleRun))
  /\ (environment (world (stateAfter sampleRun)) = None
      <-> hdr (world (stateAfter sampleRun)) = None)
  /\ (environmentPending (stateAfter sampleRun) = true ->
      environment (world (stateAfter sampleRun)) = None)
  /\ (forall t, hdr (world (stateAfter sampleRun)) = Some t ->
        Texture.mapping t = Texture.EquirectangularReflectionMapping).
Proof.
  apply (X14_environment_consistent sampleRun (stateAfter sampleRun)).
  vm_compute. reflexivity.
Defined.

Lemma environment_settled (events : list Event) (a a' : App) :
  run events a = Some a' ->
  environmentPending a = false ->
  Forall (fun e => isIntensityChange e = false) events ->
  hdr (world a') = hdr (world a)
  /\ forall h, ~ In (EnvironmentLoaded h) events.
Proof.
  revert a. induction events as [|e events IH]; intros a Hrun Hp Hno;
    simpl in Hrun.
  - injection Hrun as <-. split; [reflexivity | intros h []].
  - destruct (dispatch e a) as [a1|] eqn:E; [|discriminate].
    inversion Hno as [|? ? He Hrest]; subst.
    apply dispatch_cases in E.
    assert (H1 : environmentPending a1 = false
                 /\ hdr (world a1) = hdr (world a)
                 /\ forall h, e <> EnvironmentLoaded h).
    { destruct e as [h|err|g|err|ch].
      - destruct E as [Habs _]. rewrite Hp in Habs. discriminate.
      - destruct E as [Habs _]. rewrite Hp in Habs. discriminate.
      - destruct E as [_ ->]. cbn. repeat split; try assumption. discriminate.
      - destruct E as [_ ->]. cbn. repeat split; try assumption. discriminate.
      - destruct E as (c & _ & ->). cbn [environmentPending world].
        rewrite change_hdr. cbn [fst].
        split; [exact Hp|]. split; [|discriminate].
        destruct ch; try reflexivity. discriminate He. }
    destruct H1 as (Hp1 & Hh1 & Hne).
    destruct (IH a1 Hrun Hp1 Hrest) as [Hh Hnot].
    split; [rewrite Hh; exact Hh1|].
    intros h [Heq|Hin]; [exact (Hne h Heq) | exact (Hnot h Hin)].
Qed.

(** X15.  The parameter [envMapIntensity] is not written to the
    environment when it loads: as long as the control of that
    parameter has not been changed, the intensity of the environment
    texture is the one the loader gave it, whatever else has happened. *)
Theorem X15_environment_intensity_not_applied_at_load
  (events : list Event) (a : App) (h : Texture.t) :
  run events start = Some a ->
  Forall (fun e => isIntensityChange e = false) events ->
  In (EnvironmentLoaded h) events ->
  hdr (world a)
  = Some (Texture.make Texture.EquirectangularReflectionMapping
                       (Texture.intensity h)).
Proof.
  assert (Hgen : forall events a0 a,
    run events a0 = Some a ->
    Forall (fun e => isIntensityChange e = false) events ->
    In (EnvironmentLoaded h) events ->
    hdr (world a)
    = Some (Texture.make Texture.EquirectangularReflectionMapping
                         (Texture.intensity h))).
  { clear. intros events.
    induction events as [|e events IH]; intros a0 a Hrun Hno Hin;
      [contradiction|].
    simpl in Hrun.
    destruct (dispatch e a0) as [a1|] eqn:E; [|discriminate].
    inversion Hno as [|? ? He Hrest]; subst.
    destruct e as [h0|err|g|err|ch];
      try (destruct Hin as [Hin|Hin]; [discriminate Hin|];
           exact (IH a1 a Hrun Hrest Hin)).
    apply dispatch_cases in E. destruct E as [_ ->].
    destruct (environment_settled events _ a Hrun eq_refl Hrest) as [Hh Hnot].
    destruct Hin as [Hin|Hin]; [|exfalso; exact (Hnot h Hin)].
    injection Hin as ->. rewrite Hh. reflexivity. }
  intros Hrun. exact (Hgen events start a Hrun).
Qed.

Lemma X15_sample_witness :
  hdr (world (stateAfter sampleRun))
  = Some (Texture.make Texture.EquirectangularReflectionMapping
                       (Texture.intensity sampleTexture)).
Proof.
  apply (X15_environment_intensity_not_applied_at_load
           sampleRun (stateAfter sampleRun) sampleTexture).
  - vm_compute. reflexivity.
  - repeat constructor.
  - cbn. auto.
Defined.

(** ** The viewport *)

Lemma resize_sized (w h : Z) (v : Viewport.View) :
  Viewport.fov (Viewport.camera v) = Fin 75 ->
  Viewport.near (Viewport.camera v) = Fin (1 # 10) ->
  Viewport.far (Viewport.camera v) = Fin 1000 ->
  let v' := Viewport.handleWindowResize w h v in
  sizedFor v' w h
  /\ Viewport.fov (Viewport.camera v') = Fin 75
  /\ Viewport.near (Viewport.camera v') = Fin (1 # 10)
  /\ Viewport.far (Viewport.camera v') = Fin 1000
  /\ Viewport.position (Viewport.camera v')
     = Viewport.position (Viewport.camera v)
  /\ Viewport.target v' = Viewport.target v.
Proof.
  intros Hf Hn Hfar. destruct v as [[f a n fa p pm] wd ht tg].
  cbn in *. subst. repeat split.
Qed.

Lemma resizes_sized (sizes : list (Z * Z)) :
  forall (v : Viewport.View) (w h : Z),
    Viewport.fov (Viewport.camera v) = Fin 75 ->
    Viewport.near (Viewport.camera v) = Fin (1 # 10) ->
    Viewport.far (Viewport.camera v) = Fin 1000 ->
    sizedFor v w h ->
    let v' := Viewport.resizes sizes v in
    sizedFor v' (fst (last sizes (w, h))) (snd (last sizes (w, h)))
    /\ Viewport.position (Viewport.camera v')
       = Viewport.position (Viewport.camera v)
    /\ Viewport.target v' = Viewport.target v.
Proof.
  induction sizes as [|[w1 h1] sizes IH]; intros v w h Hf Hn Hfar Hs.
  - cbn. repeat split; apply Hs.
  - destruct (resize_sized w1 h1 v Hf Hn Hfar)
      as (Hs1 & Hf1 & Hn1 & Hfar1 & Hp1 & Ht1).
    destruct (IH _ w1 h1 Hf1 Hn1 Hfar1 Hs1) as (Hs' & Hp' & Ht').
    cbn [Viewport.resizes].
    replace (last ((w1, h1) :: sizes) (w, h)) with (last sizes (w1, h1)).
    + split; [exact Hs'|]. split; congruence.
    + clear. destruct sizes as [|s sizes]; [reflexivity|].
      cbn [last]. generalize s. clear s.
      induction sizes as [|s' sizes IH]; intros s; [reflexivity|].
      cbn [last]. apply IH.
Qed.

(** X16.  From the set-up on and after any series of resizes, the
    viewport is sized for the window as it was at the last resize (at
    the set-up, if there was none): the renderer has that size, the
    camera's aspect is its width over its height, and the projection
    matrix is up to date.  A resize does not move the camera. *)
Theorem X16_viewport_follows_window
  (innerWidth innerHeight : Z) (sizes : list (Z * Z)) :
  let v := Viewport.resizes sizes (Viewport.setup innerWidth innerHeight) in
  let size := last sizes (innerWidth, innerHeight) in
  sizedFor v (fst size) (snd size)
  /\ Viewport.position (Viewport.camera v) = vec3 (Fin 0) (Fin 0) (Fin 5)
  /\ Viewport.target v = zero3.
Proof.
  intros v size. subst v size.
  destruct (resizes_sized sizes
              (Viewport.setup innerWidth innerHeight) innerWidth innerHeight)
    as (Hs & Hp & Ht); try reflexivity.
  - repeat split.
  - split; [exact Hs|]. split; [rewrite Hp | rewrite Ht]; reflexivity.
Qed.

Lemma aspect_of_pixels (w h : Z) :
  let a := div (Viewport.pixels w) (Viewport.pixels h) in
  isFinite a = negb (h =? 0)%Z
  /\ (h <> 0%Z -> a =n= Fin (inject_Z w / inject_Z h))
  /\ (h = 0%Z -> (0 < w)%Z -> a = PInf)
  /\ (h = 0%Z -> w = 0%Z -> a = NaN).
Proof.
  unfold Viewport.pixels, div, sgn.
  destruct h as [|ph|ph].
  - replace (0 ?= inject_Z 0) with Eq by reflexivity.
    split; [destruct w; reflexivity|].
    split; [intros Habs; contradiction|].
    split; intros _ Hw.
    + destruct w; try lia. reflexivity.
    + subst w. reflexivity.
  - replace (0 ?= inject_Z (Z.pos ph)) with Lt by reflexivity.
    split; [reflexivity|]. split; [intros _; apply Qeq_refl|].
    split; discriminate.
  - replace (0 ?= inject_Z (Z.neg ph)) with Gt by reflexivity.
    split; [reflexivity|]. split; [intros _; apply Qeq_refl|].
    split; discriminate.
Qed.

(** X17.  The aspect the resize handler gives the camera is a finite
    number exactly when the height of the window is not zero, and is
    then the width over the height.  With a height of zero nothing
    guards the division: the aspect is [Infinity] for a positive width
    and [NaN] for a width of zero.  The set-up computes the aspect the
    same way. *)
Theorem X17_aspect_of_window (w h : Z) (v : Viewport.View) :
  let resized := Viewport.aspect (Viewport.camera
                                    (Viewport.handleWindowResize w h v)) in
  let initial := Viewport.aspect (Viewport.camera (Viewport.setup w h)) in
  initial = resized
  /\ isFinite resized = negb (h =? 0)%Z
  /\ (h <> 0%Z -> resized =n= Fin (inject_Z w / inject_Z h))
  /\ (h = 0%Z -> (0 < w)%Z -> resized = PInf)
  /\ (h = 0%Z -> w = 0%Z -> resized = NaN).
Proof.
  intros resized initial. split; [reflexivity|].
  exact (aspect_of_pixels w h).
Qed.

Lemma X17_minimised_window_witness :
  let resized :=
    Viewport.aspect (Viewport.camera
      (Viewport.handleWindowResize 800 0 (Viewport.setup 800 600))) in
  let initial := Viewport.aspect (Viewport.camera (Viewport.setup 800 0)) in
  initial = resized
  /\ isFinite resized = negb (0 =? 0)%Z
  /\ (0%Z <> 0%Z -> resized =n= Fin (inject_Z 800 / inject_Z 0))
  /\ (0%Z = 0%Z -> (0 < 800)%Z -> resized = PInf)
  /\ (0%Z = 0%Z -> 800%Z = 0%Z -> resized = NaN).
Proof. exact (X17_aspect_of_window 800 0 (Viewport.setup 800 600)). Defined.

(** X18.  For a fitted model of moderate size the controls aim at
    the origin of the model's root, which is at minus the centre of the
    loaded box along the two horizontal axes and at height
    [-box.min.y * scaleFactor]; the camera is put two units above and
    ten units in front of that point.  The size of the viewport is not
    touched.  No number the fit computes, and no coordinate of the
    camera, leaves the range of doubles. *)
Theorem X18_camera_framing (gltf : Model) (w : World) (v : Viewport.View)
  (x0 y0 z0 x1 y1 z1 : Q) :
  identityTransform (Object3D.props (root gltf)) ->
  spans (geometry gltf) x0 y0 z0 x1 y1 z1 ->
  moderate x0 y0 z0 x1 y1 z1 ->
  let duck := rubberDuck (snd (onLoad gltf w)) in
  let v' := Viewport.frameCamera duck v in
  let s := 5 / largestExtent x0 y0 z0 x1 y1 z1 in
  Viewport.target v' = Object3D.position (Object3D.props (root duck))
  /\ vdenotes (Viewport.target v')
       (- ((x0 + x1) * (1 # 2))) (- y0 * s) (- ((z0 + z1) * (1 # 2)))
  /\ vdenotes (Viewport.position (Viewport.camera v'))
       (- ((x0 + x1) * (1 # 2))) (- y0 * s + 2)
       (- ((z0 + z1) * (1 # 2)) + 10)
  /\ Viewport.width v' = Viewport.width v
  /\ Viewport.height v' = Viewport.height v
  /\ Viewport.aspect (Viewport.camera v') = Viewport.aspect (Viewport.camera v)
  /\ Forall inDoubleRange (fitValues gltf)
  /\ Forall inDoubleRange
       (components (Viewport.position (Viewport.camera v'))).
Proof.
  intros Hid Hg Hmod duck v' s.
  pose proof (moderate_positive _ _ _ _ _ _ Hmod) as Hpos.
  pose proof (fit_in_range gltf _ _ _ _ _ _ Hid Hg Hmod) as Hrange.
  pose proof (scaleFactor_fit gltf _ _ _ _ _ _ Hid Hg Hpos) as Hs.
  pose proof (setFromObject_identity gltf _ _ _ _ _ _ Hid Hg) as Hbox.
  destruct (getCenter_spans _ _ _ _ _ _ _ Hbox) as (Cx & _ & Cz).
  destruct Hbox as [(_ & By & _) _ _ _ _].
  destruct (onLoad_transform gltf w) as (_ & Ep & _).
  destruct (normalize_transform gltf) as (_ & Ep' & _).
  destruct Hid as (Hp0 & _ & _).
  assert (Hpos' : vdenotes (Object3D.position (Object3D.props (root duck)))
                    (- ((x0 + x1) * (1 # 2))) (- y0 * s)
                    (- ((z0 + z1) * (1 # 2)))).
  { subst duck. rewrite Ep, Ep', Hp0.
    repeat split; cbn [x y z setY vsub zero3].
    - eapply denotes_eq;
        [apply sub_denotes; [apply denotes_Fin; reflexivity | exact Cx]|].
      ring.
    - apply mul_denotes; [apply neg_denotes; exact By | exact Hs].
    - eapply denotes_eq;
        [apply sub_denotes; [apply denotes_Fin; reflexivity | exact Cz]|].
      ring. }
  assert (Ht : Viewport.target v'
               = Object3D.position (Object3D.props (root duck))).
  { subst v'. unfold Viewport.frameCamera. cbn [Viewport.target].
    destruct (Object3D.position (Object3D.props (root duck))); reflexivity. }
  destruct Hpos' as (Px & Py & Pz).
  assert (Hcam : vdenotes (Viewport.position (Viewport.camera v'))
                   (- ((x0 + x1) * (1 # 2))) (- y0 * s + 2)
                   (- ((z0 + z1) * (1 # 2)) + 10)).
  { subst v'. unfold Viewport.frameCamera.
    cbn [Viewport.camera Viewport.position Viewport.withCameraPosition set].
    repeat split; cbn [x y z].
    - exact Px.
    - apply add_denotes; [exact Py | apply denotes_Fin; reflexivity].
    - apply add_denotes; [exact Pz | apply denotes_Fin; reflexivity]. }
  split; [exact Ht|]. split; [rewrite Ht; repeat split; assumption|].
  split; [exact Hcam|].
  split; [reflexivity|]. split; [reflexivity|]. split; [reflexivity|].
  split; [exact Hrange|].
  destruct (moderate_scaleFactor _ _ _ _ _ _ Hmod) as (Hlo & Hhi & _).
  fold s in Hlo, Hhi.
  destruct Hmod as ((Ax0 & Ux0) & (Ay0 & Uy0) & (Az0 & Uz0)
                    & (Ax1 & Ux1) & _ & (Az1 & Uz1) & _).
  destruct fitRange_facts as (H1 & _ & _ & _).
  assert (Hs0 : 0 <= s).
  { assert (0 < 5 / (2 * fitRange)); [|lra].
    unfold Qdiv. apply Qmult_lt_0_compat; [lra|].
    apply Qinv_lt_0_compat. lra. }
  assert (HR : fitRange * (5 * fitRange) + fitRange + 10 <= maxDouble)
    by (unfold Qle; vm_compute; discriminate).
  destruct (product_bound (- y0) s fitRange (5 * fitRange))
    as [Py0 Qy0]; try assumption; try lra.
  destruct Hcam as (Kx & Ky & Kz).
  unfold components.
  repeat (apply Forall_cons || apply Forall_nil);
    (eapply within_denotes; [eassumption| |]); clearbody s; lra.
Qed.

Lemma X18_sample_witness :
  let duck := rubberDuck (snd (onLoad sampleModel boot)) in
  let v' := Viewport.frameCamera duck (Viewport.setup 800 600) in
  let s := 5 / largestExtent 0 0 0 2 10 4 in
  Viewport.target v' = Object3D.position (Object3D.props (root duck))
  /\ vdenotes (Viewport.target v')
       (- ((0 + 2) * (1 # 2))) (- 0 * s) (- ((0 + 4) * (1 # 2)))
  /\ vdenotes (Viewport.position (Viewport.camera v'))
       (- ((0 + 2) * (1 # 2))) (- 0 * s + 2) (- ((0 + 4) * (1 # 2)) + 10)
  /\ Viewport.width v' = Viewport.width (Viewport.setup 800 600)
  /\ Viewport.height v' = Viewport.height (Viewport.setup 800 600)
  /\ Viewport.aspect (Viewport.camera v')
     = Viewport.aspect (Viewport.camera (Viewport.setup 800 600))
  /\ Forall inDoubleRange (fitValues sampleModel)
  /\ Forall inDoubleRange
       (components (Viewport.position (Viewport.camera v'))).
Proof.
  apply (X18_camera_framing sampleModel boot (Viewport.setup 800 600)
           0 0 0 2 10 4).
  - repeat split.
  - apply finite_box_spans; discriminate.
  - repeat split; unfold Qle; vm_compute; discriminate.
Defined.

(** ** The material pass of the model callback *)

(** X19.  The material pass of the model callback keeps the tree of
    the model (the same nodes, of the same kinds, in the same order),
    turns on shadow casting and receiving on every mesh, marks every
    mesh material for update, and leaves the tone-mapping fields of the
    materials as the loader gave them: at the end of the load they are
    not yet those of the renderer. *)
Theorem X19_material_pass (gltf : Model) (w : World) :
  let duck := rubberDuck (snd (onLoad gltf w)) in
  map Object3D.isMesh (Object3D.nodes (root duck))
  = map Object3D.isMesh (Object3D.nodes (root gltf))
  /\ Forall (fun p =>
       Object3D.isMesh p = true ->
       Object3D.castShadow p = true /\ Object3D.receiveShadow p = true)
       (Object3D.nodes (root duck))
  /\ Forall (fun m => Material.needsUpdate m = true)
       (Object3D.materials (root duck))
  /\ map Material.toneMapping (Object3D.materials (root duck))
     = map Material.toneMapping (Object3D.materials (root gltf))
  /\ map Material.toneMappingExposure (Object3D.materials (root duck))
     = map Material.toneMappingExposure (Object3D.materials (root gltf)).
Proof.
  intros duck.
  assert (Hnodes : Object3D.nodes (root duck)
                   = map (loadPass (window w))
                         (Object3D.nodes (root (normalize gltf)))).
  { subst duck. unfold onLoad. cbn [snd rubberDuck traverseModel root].
    apply nodes_traverse. }
  assert (Hkinds : map Object3D.isMesh (Object3D.nodes (root (normalize gltf)))
                   = map Object3D.isMesh (Object3D.nodes (root gltf))).
  { destruct gltf as [[p ch] g]. reflexivity. }
  split; [|split; [|split; [|split]]].
  - rewrite Hnodes, map_map, <- Hkinds. apply map_ext.
    intros p. unfold loadPass, Object3D.isMesh.
    destruct (Object3D.kind p) eqn:E; cbn; rewrite ?E; reflexivity.
  - rewrite Hnodes. apply Forall_forall. intros p Hin.
    apply in_map_iff in Hin. destruct Hin as [p0 [<- _]].
    unfold loadPass, Object3D.isMesh.
    destruct (Object3D.kind p0) eqn:E; cbn; [rewrite E; discriminate|].
    intros _. split; reflexivity.
  - subst duck. rewrite onLoad_materials. apply Forall_forall.
    intros m Hin. apply in_map_iff in Hin. destruct Hin as [m0 [<- _]].
    reflexivity.
  - subst duck. rewrite onLoad_materials, map_map. reflexivity.
  - subst duck. rewrite onLoad_materials, map_map. reflexivity.
Qed.

(** ** What a change leaves alone *)

(** X20.  A change on the control panel writes to the parameter of
    its control and to the targets of the control, and to nothing else:
    the materials, the renderer's tone mapping, the environment
    texture, the point light and the rotation of the model are each
    left as they were by every control that does not target them; and
    no control touches the place and size of the model, the scene's
    list of objects, its background and environment references, the
    two static lights or the console. *)
Theorem X20_change_writes_only_its_targets (ch : Change) (l : Live) :
  let w := fst l in
  let c := snd l in
  let w' := fst (snd (change ch l)) in
  let c' := snd (snd (change ch l)) in
  window w' = store ch (window w)
  /\ (~ In MeshMaterials (targets ch) ->
      Object3D.materials (root (rubberDuck c'))
      = Object3D.materials (root (rubberDuck c)))
  /\ (~ In RendererToneMapping (targets ch) -> renderer w' = renderer w)
  /\ (~ In EnvironmentTexture (targets ch) -> hdr w' = hdr w)
  /\ (~ In PointLight (targets ch) -> light1 c' = light1 c)
  /\ (~ In ModelRotation (targets ch) ->
      Object3D.rotation (Object3D.props (root (rubberDuck c')))
      = Object3D.rotation (Object3D.props (root (rubberDuck c))))
  /\ (~ In MeshMaterials (targets ch) -> ~ In ModelRotation (targets ch) ->
      rubberDuck c' = rubberDuck c)
  /\ Object3D.position (Object3D.props (root (rubberDuck c')))
     = Object3D.position (Object3D.props (root (rubberDuck c)))
  /\ Object3D.scale (Object3D.props (root (rubberDuck c')))
     = Object3D.scale (Object3D.props (root (rubberDuck c)))
  /\ geometry (rubberDuck c') = geometry (rubberDuck c)
  /\ sceneChildren w' = sceneChildren w
  /\ background w' = background w
  /\ environment w' = environment w
  /\ ambientLight w' = ambientLight w
  /\ directionalLight w' = directionalLight w
  /\ console w' = console w.
Proof.
  intros w c w' c'. subst w c w' c'.
  pose proof (change_window ch l) as Hw.
  pose proof (change_materials ch l) as Hm.
  pose proof (change_transform ch l) as (Hp & Hs & Hg & _).
  split; [exact Hw|]. split.
  { intros Hno. rewrite Hm.
    destruct ch; cbn in Hno; try (exfalso; apply Hno; auto; fail);
      apply map_id. }
  destruct l as [[win r h b e s al dl co] [[[p chn] g] li]]. destruct win.
  cbn [fst snd] in *.
  destruct ch; cbn -[In];
    try (destruct e as [[]|]; cbn -[In]);
    repeat split; try reflexivity;
    try (intros Hno; exfalso; apply Hno; cbn; auto; fail);
    try (intros _; unfold eachMesh; destruct (Object3D.kind p); reflexivity);
    try (intros Hno _; exfalso; apply Hno; cbn; auto; fail);
    try (intros _ Hno; exfalso; apply Hno; cbn; auto; fail);
    try (unfold eachMesh; destruct (Object3D.kind p); reflexivity).
Qed.

Lemma X20_exposure_witness :
  let l := onLoad sampleModel boot in
  let ch := Exposure (Fin 2) in
  let w := fst l in
  let c := snd l in
  let w' := fst (snd (change ch l)) in
  let c' := snd (snd (change ch l)) in
  window w' = store ch (window w)
  /\ (~ In MeshMaterials (targets ch) ->
      Object3D.materials (root (rubberDuck c'))
      = Object3D.materials (root (rubberDuck c)))
  /\ (~ In RendererToneMapping (targets ch) -> renderer w' = renderer w)
  /\ (~ In EnvironmentTexture (targets ch) -> hdr w' = hdr w)
  /\ (~ In PointLight (targets ch) -> light1 c' = light1 c)
  /\ (~ In ModelRotation (targets ch) ->
      Object3D.rotation (Object3D.props (root (rubberDuck c')))
      = Object3D.rotation (Object3D.props (root (rubberDuck c))))
  /\ (~ In MeshMaterials (targets ch) -> ~ In ModelRotation (targets ch) ->
      rubberDuck c' = rubberDuck c)
  /\ Object3D.position (Object3D.props (root (rubberDuck c')))
     = Object3D.position (Object3D.props (root (rubberDuck c)))
  /\ Object3D.scale (Object3D.props (root (rubberDuck c')))
     = Object3D.scale (Object3D.props (root (rubberDuck c)))
  /\ geometry (rubberDuck c') = geometry (rubberDuck c)
  /\ sceneChildren w' = sceneChildren w
  /\ background w' = background w
  /\ environment w' = environment w
  /\ ambientLight w' = ambientLight w
  /\ directionalLight w' = directionalLight w
  /\ console w' = console w.
Proof.
  exact (X20_change_writes_only_its_targets
           (Exposure (Fin 2)) (onLoad sampleModel boot)).
Defined.
